(** * The Roc sender example [sender_sinewave.c], embedded and verified

    The example generates a sine wave and hands it to the Roc sender through a
    fixed sequence of library calls.  This development embeds the two functions
    of the file, [gensine] and [main]:

    - [size_t] values are integers in [0, 2^64) with the wrap-around written
      out; [float] and [double] values are IEEE 754 binary32 and binary64
      numbers ([spec_float] with the operations of [SpecFloat] at precision
      24 and 53), evaluated as the C abstract machine does without excess
      precision;
    - the array [samples] is a list of cells, a cell being empty until it is
      stored to; a store outside the array is an error of the model;
    - [main] is a program of a small free monad whose operations are the calls
      into the Roc library, [fprintf] on stderr and [exit]; it is run against
      an environment that decides what every inspected library call returns. *)

From Stdlib Require Import ZArith Lia Bool String Ascii.
From Stdlib Require Import Floats.SpecFloat.
From stdpp Require Import base option list.

Local Open Scope Z_scope.

(** ** Machine arithmetic *)

(** [size_t] on the LP64 targets the example is built for. *)
Module SizeT.
Definition bits : Z := 64.
Definition modulus : Z := 2 ^ bits.
Definition wrap (z : Z) : Z := z mod modulus.
Definition add (a b : Z) : Z := wrap (a + b).
Definition mul (a b : Z) : Z := wrap (a * b).
Definition div (a b : Z) : Z := a / b.
Definition valid (z : Z) : Prop := 0 <= z < modulus.
End SizeT.

(** IEEE 754 binary64, the C type [double]. *)
Module F64.
Definition prec : Z := 53.
Definition emax : Z := 1024.
Definition of_Z (z : Z) : spec_float := binary_normalize prec emax z 0 false.
Definition add : spec_float -> spec_float -> spec_float := SFadd prec emax.
Definition mul : spec_float -> spec_float -> spec_float := SFmul prec emax.
Definition div : spec_float -> spec_float -> spec_float := SFdiv prec emax.
(** A decimal constant [num / 10^digits], rounded to nearest as the
    compiler does: both integers are exact doubles and the division is
    correctly rounded. *)
Definition of_decimal (num : Z) (digits : Z) : spec_float :=
  div (of_Z num) (of_Z (10 ^ digits)).
End F64.

(** IEEE 754 binary32, the C type [float]. *)
Module F32.
Definition prec : Z := 24.
Definition emax : Z := 128.
Definition of_Z (z : Z) : spec_float := binary_normalize prec emax z 0 false.
Definition mul : spec_float -> spec_float -> spec_float := SFmul prec emax.
Definition div : spec_float -> spec_float -> spec_float := SFdiv prec emax.
Definition opp : spec_float -> spec_float := SFopp.
(** The conversion [(float) x] of a double. *)
Definition of_double (x : spec_float) : spec_float :=
  match x with
  | S754_finite s m e => binary_round prec emax s m e
  | _ => x
  end.
Definition of_decimal (num : Z) (digits : Z) : spec_float :=
  div (of_Z num) (of_Z (10 ^ digits)).
(** [sizeof(float)] *)
Definition sizeof : Z := 4.
End F32.

(** ** Signal parameters (the [#define]s of the example) *)

Definition EXAMPLE_RECEIVER_IP : string := "127.0.0.1".
Definition EXAMPLE_RECEIVER_SOURCE_PORT : Z := 10001.
Definition EXAMPLE_RECEIVER_REPAIR_PORT : Z := 10002.

Definition EXAMPLE_SAMPLE_RATE : Z := 44100.
Definition EXAMPLE_SINE_RATE : Z := 440.
Definition EXAMPLE_SINE_SAMPLES : Z := EXAMPLE_SAMPLE_RATE * 5.
Definition EXAMPLE_BUFFER_SIZE : Z := 100.

(** ** The sample array *)

(** A cell of a [float] array: [None] until something is stored in it. *)
Definition cell : Type := option spec_float.

(** The array together with the indices stored to so far, oldest first. *)
Record buffer : Type := Buffer {
  cells : list cell;
  stored : list Z
}.

Definition fresh_buffer (n : Z) : buffer :=
  Buffer (replicate (Z.to_nat n) None) [].

(** [samples[idx] = v]; [None] when [idx] is outside the array. *)
Definition store (b : buffer) (idx : Z) (v : spec_float) : option buffer :=
  if (0 <=? idx) && (idx <? Z.of_nat (length (cells b)))
  then Some (Buffer (<[Z.to_nat idx := Some v]> (cells b)) (stored b ++ [idx]))
  else None.

(** ** [gensine] *)

(** [t += 1] *)
Definition next_time (t : spec_float) : spec_float := F64.add t (F64.of_Z 1).

(** [double t = batch_num * num_samples / 2], the product and the quotient
    taken in [size_t]. *)
Definition gensine_start (batch_num num_samples : Z) : Z :=
  SizeT.div (SizeT.mul batch_num num_samples) 2.

(** The value of [t] when the loop body runs for the [i]-th time. *)
Definition gensine_time (batch_num num_samples : Z) (i : nat) : spec_float :=
  Nat.iter i next_time (F64.of_Z (gensine_start batch_num num_samples)).

Section Gensine.
(** [sin] of the C mathematical library. *)
Variable sin : spec_float -> spec_float.

(** [2 * 3.14159265359 * EXAMPLE_SINE_RATE / EXAMPLE_SAMPLE_RATE * t], in
    double, associated to the left. *)
Definition phase (t : spec_float) : spec_float :=
  F64.mul
    (F64.div
       (F64.mul (F64.mul (F64.of_Z 2) (F64.of_decimal 314159265359 11))
                (F64.of_Z EXAMPLE_SINE_RATE))
       (F64.of_Z EXAMPLE_SAMPLE_RATE))
    t.

(** [(float)sin(...) * 0.1f]: the cast applies to [sin]'s result, the
    product is taken in [float]. *)
Definition sample_at (t : spec_float) : spec_float :=
  F32.mul (F32.of_double (sin (phase t))) (F32.of_decimal 1 1).

(** [k] runs of the loop body, starting at index [i] and time [t]. *)
Fixpoint gensine_loop (k : nat) (i : Z) (t : spec_float) (b : buffer)
  : option buffer :=
  match k with
  | O => Some b
  | S k' =>
      let s := sample_at t in
      b1 ← store b (SizeT.mul i 2) s;
      b2 ← store b1 (SizeT.add (SizeT.mul i 2) 1) (F32.opp s);
      gensine_loop k' (SizeT.add i 1) (next_time t) b2
  end.

(** [for (i = 0; i < num_samples / 2; i++)] runs its body
    [num_samples / 2] times. *)
Definition gensine (samples : buffer) (batch_num num_samples : Z)
  : option buffer :=
  gensine_loop (Z.to_nat (SizeT.div num_samples 2)) 0
    (F64.of_Z (gensine_start batch_num num_samples)) samples.
End Gensine.

(** ** The Roc library, as the example sees it *)

(** The enumerators and structure fields the example names; the library's
    headers declare more. *)
Inductive roc_log_level : Type := ROC_LOG_DEBUG.
Inductive roc_channel_set : Type := ROC_CHANNEL_SET_STEREO.
Inductive roc_frame_encoding : Type := ROC_FRAME_ENCODING_PCM_FLOAT.
Inductive roc_clock_source : Type := ROC_CLOCK_INTERNAL.
Inductive roc_protocol : Type :=
  ROC_PROTO_RTP_RS8M_SOURCE | ROC_PROTO_RS8M_REPAIR.
Inductive roc_interface : Type :=
  ROC_INTERFACE_AUDIO_SOURCE | ROC_INTERFACE_AUDIO_REPAIR.

(** [roc_context_config], which the example only ever zeroes. *)
Inductive roc_context_config : Type := context_config_zeroed.

(** [roc_sender_config], reduced to the four fields the example assigns
    after zeroing the structure; [None] is a field left at zero, which
    stands for the library's default. *)
Record roc_sender_config : Type := SenderConfig {
  frame_sample_rate : Z;
  frame_channels : option roc_channel_set;
  frame_encoding : option roc_frame_encoding;
  clock_source : option roc_clock_source
}.

(** [roc_frame]: the pointed-to samples as they are when the frame is handed
    over, and the declared byte length. *)
Record roc_frame : Type := Frame {
  samples : list cell;
  samples_size : Z
}.

(** The two endpoint pointers of [main]. *)
Inductive endpoint : Type := recv_source_endp | recv_repair_endp.

(** The library calls of the example.  There is one context and one sender,
    so the handles are left out. *)
Inductive call : Type :=
| roc_log_set_level (level : roc_log_level)
| roc_context_open (config : roc_context_config)
| roc_sender_open (config : roc_sender_config)
| roc_endpoint_allocate (endp : endpoint)
| roc_endpoint_set_protocol (endp : endpoint) (proto : roc_protocol)
| roc_endpoint_set_host (endp : endpoint) (host : string)
| roc_endpoint_set_port (endp : endpoint) (port : Z)
| roc_sender_connect (iface : roc_interface) (endp : endpoint)
| roc_endpoint_deallocate (endp : endpoint)
| roc_sender_write (frame : roc_frame)
| roc_sender_close
| roc_context_close.

(** ** Programs *)

(** A program makes library calls, inspecting the result ([Call]) or not
    ([Do]), prints on stderr, and ends by returning, by [exit] or, after an
    out-of-bounds store, in undefined behaviour. *)
Inductive prog (A : Type) : Type :=
| Ret (a : A)
| Call (c : call) (k : Z -> prog A)
| Do (c : call) (k : prog A)
| Stderr (text : string) (k : prog A)
| Exit (status : Z)
| Undefined.
Arguments Ret {A} a.
Arguments Call {A} c k.
Arguments Do {A} c k.
Arguments Stderr {A} text k.
Arguments Exit {A} status.
Arguments Undefined {A}.

Fixpoint prog_bind {A B : Type} (f : A -> prog B) (p : prog A) : prog B :=
  match p with
  | Ret a => f a
  | Call c k => Call c (fun r => prog_bind f (k r))
  | Do c k => Do c (prog_bind f k)
  | Stderr text k => Stderr text (prog_bind f k)
  | Exit status => Exit status
  | Undefined => Undefined
  end.

#[global] Instance prog_ret : MRet prog := @Ret.
#[global] Instance prog_mbind : MBind prog := @prog_bind.

Definition call_ (c : call) : prog Z := Call c Ret.
Definition do_ (c : call) : prog unit := Do c (Ret tt).
Definition fprintf_stderr (text : string) : prog unit := Stderr text (Ret tt).
Definition exit (status : Z) : prog unit := Exit status.

(** [if (cond) { body }] *)
Definition when (cond : bool) (body : prog unit) : prog unit :=
  if cond then body else Ret tt.

(** [for (i = start; ...; i++) body], for a loop that runs [k] times. *)
Fixpoint for_loop (k : nat) (i : Z) (body : Z -> prog unit) : prog unit :=
  match k with
  | O => Ret tt
  | S k' => body i ;; for_loop k' (SizeT.add i 1) body
  end.

Definition newline : string := String (ascii_of_nat 10) EmptyString.

(** The macro [oops(msg)]. *)
Definition oops (msg : string) : prog unit :=
  fprintf_stderr ("oops: " ++ msg ++ newline)%string ;; exit 1.

(** ** [main] *)

Section Main.
Variable sin : spec_float -> spec_float.

(** One run of the body of the write loop. *)
Definition write_batch (i : Z) : prog unit :=
  let samples := fresh_buffer EXAMPLE_BUFFER_SIZE in
  match gensine sin samples i EXAMPLE_BUFFER_SIZE with
  | None => Undefined
  | Some samples =>
      let frame := Frame (cells samples) (EXAMPLE_BUFFER_SIZE * F32.sizeof) in
      r ← call_ (roc_sender_write frame);
      when (negb (r =? 0)) (oops "roc_sender_write")
  end.

(** Allocate an endpoint, fill it in, connect the sender to it and release
    it: the block [main] has once per endpoint. *)
Definition connect_endpoint (endp : endpoint) (proto : roc_protocol)
    (port : Z) (iface : roc_interface) : prog unit :=
  r ← call_ (roc_endpoint_allocate endp);
  when (negb (r =? 0)) (oops "roc_endpoint_allocate") ;;
  do_ (roc_endpoint_set_protocol endp proto) ;;
  do_ (roc_endpoint_set_host endp EXAMPLE_RECEIVER_IP) ;;
  do_ (roc_endpoint_set_port endp port) ;;
  r ← call_ (roc_sender_connect iface endp);
  when (negb (r =? 0)) (oops "roc_sender_connect") ;;
  r ← call_ (roc_endpoint_deallocate endp);
  when (negb (r =? 0)) (oops "roc_endpoint_deallocate").

Definition main : prog Z :=
  do_ (roc_log_set_level ROC_LOG_DEBUG) ;;
  let context_config := context_config_zeroed in
  r ← call_ (roc_context_open context_config);
  when (negb (r =? 0)) (oops "roc_context_open") ;;
  let sender_config :=
    SenderConfig EXAMPLE_SAMPLE_RATE (Some ROC_CHANNEL_SET_STEREO)
      (Some ROC_FRAME_ENCODING_PCM_FLOAT) (Some ROC_CLOCK_INTERNAL) in
  r ← call_ (roc_sender_open sender_config);
  when (negb (r =? 0)) (oops "roc_sender_open") ;;
  connect_endpoint recv_source_endp ROC_PROTO_RTP_RS8M_SOURCE
    EXAMPLE_RECEIVER_SOURCE_PORT ROC_INTERFACE_AUDIO_SOURCE ;;
  connect_endpoint recv_repair_endp ROC_PROTO_RS8M_REPAIR
    EXAMPLE_RECEIVER_REPAIR_PORT ROC_INTERFACE_AUDIO_REPAIR ;;
  for_loop (Z.to_nat (SizeT.div EXAMPLE_SINE_SAMPLES EXAMPLE_BUFFER_SIZE)) 0
    write_batch ;;
  r ← call_ roc_sender_close;
  when (negb (r =? 0)) (oops "roc_sender_close") ;;
  r ← call_ roc_context_close;
  when (negb (r =? 0)) (oops "roc_context_close") ;;
  Ret 0.
End Main.

(** ** Running a program *)

(** What a run leaves behind: the calls with the value returned where the
    program looked at it, and the text printed on stderr. *)
Inductive event : Type :=
| EvCall (c : call) (ret : Z)
| EvDo (c : call)
| EvStderr (text : string).

Inductive outcome (A : Type) : Type :=
| Returned (a : A)
| Exited (status : Z)
| Crashed.
Arguments Returned {A} a.
Arguments Exited {A} status.
Arguments Crashed {A}.

(** The library and the network behind it: what an inspected call returns,
    given the events so far (latest first). *)
Definition environment : Type := list event -> call -> Z.

Fixpoint run {A : Type} (env : environment) (past : list event) (p : prog A)
  : list event * outcome A :=
  match p with
  | Ret a => ([], Returned a)
  | Call c k =>
      let r := env past c in
      let '(t, o) := run env (EvCall c r :: past) (k r) in
      (EvCall c r :: t, o)
  | Do c k =>
      let '(t, o) := run env (EvDo c :: past) k in (EvDo c :: t, o)
  | Stderr text k =>
      let '(t, o) := run env (EvStderr text :: past) k in (EvStderr text :: t, o)
  | Exit status => ([], Exited status)
  | Undefined => ([], Crashed)
  end.

(** The events of a run of [main], oldest first, and the way it ended. *)
Definition trace (sin : spec_float -> spec_float) (env : environment)
  : list event :=
  fst (run env [] (main sin)).
Definition result (sin : spec_float -> spec_float) (env : environment)
  : outcome Z :=
  snd (run env [] (main sin)).

(** The exit status the process reports, when it ends in a defined way. *)
Definition exit_code (o : outcome Z) : option Z :=
  match o with
  | Returned a => Some a
  | Exited status => Some status
  | Crashed => None
  end.

(** An environment in which every call succeeds. *)
Definition all_succeed : environment := fun _ _ => 0.

(** ** The stream encoder of the sender pipeline *)

(** Modelled from the spec: the stream encoder and the frame ingestion port
    of the sender pipeline are library code that the example only calls
    ([roc_sender_write]).  A session accepts a frame when it is connected
    and the frame's length is a positive multiple of the channel count; the
    accepted samples join the pending stream, which is cut into packets of
    a fixed size, each given the next sequence number; a refused frame
    changes nothing. *)
Module StreamEncoder.
Inductive write_error : Type := InvalidLength | NotConnected.

Record source_packet : Type := SourcePacket {
  seq_num : Z;
  payload : list spec_float
}.

Record session : Type := Session {
  channel_count : nat;
  packet_size : nat;
  connected : bool;
  next_seq : Z;
  pending : list spec_float
}.

(** Cut whole packets off the front of [stream], at most [fuel] of them. *)
Fixpoint packetize (fuel size : nat) (seq : Z) (stream : list spec_float)
  : list source_packet * (Z * list spec_float) :=
  match fuel with
  | O => ([], (seq, stream))
  | S fuel' =>
      if decide (size <= length stream)%nat then
        let '(pkts, st) :=
          packetize fuel' size (seq + 1) (drop size stream) in
        (SourcePacket seq (take size stream) :: pkts, st)
      else ([], (seq, stream))
  end.

Definition write (s : session) (frame : list spec_float)
  : write_error + list source_packet * session :=
  if negb (connected s) then inl NotConnected
  else if decide (length frame = 0%nat
                  \/ (length frame `mod` channel_count s)%nat <> 0%nat)
  then inl InvalidLength
  else
    let stream := pending s ++ frame in
    let '(pkts, (seq, rest)) :=
      packetize (length stream) (packet_size s) (next_seq s) stream in
    inr (pkts, Session (channel_count s) (packet_size s) (connected s)
                 seq rest).

(** The packets a session emits over a sequence of writes; a write that
    fails emits nothing and leaves the session as it was. *)
Fixpoint write_all (s : session) (frames : list (list spec_float))
  : list source_packet :=
  match frames with
  | [] => []
  | frame :: frames' =>
      match write s frame with
      | inl _ => write_all s frames'
      | inr (pkts, s') => pkts ++ write_all s' frames'
      end
  end.
End StreamEncoder.

(** ** Auxiliary notions for the statements *)

(** The indices [gensine] stores to in [k] runs of its loop body from
    pair index [i] on: [2i], [2i+1], [2(i+1)], ... *)
Definition pair_indices (i : Z) (k : nat) : list Z :=
  j ← seqZ i (Z.of_nat k); [j * 2; j * 2 + 1].

(** A stand-in for the C library's [sin], to run the program on concrete
    inputs: the signal is then silence.  Neither the sequence of calls nor
    the indices stored to depend on the values of [sin]. *)
Definition flat_sin (x : spec_float) : spec_float := S754_zero false.

(** The frame [main] writes in round [i] of its loop. *)
Definition batch_frame (sin : spec_float -> spec_float) (i : Z) : roc_frame :=
  match gensine sin (fresh_buffer EXAMPLE_BUFFER_SIZE) i EXAMPLE_BUFFER_SIZE with
  | Some b => Frame (cells b) (EXAMPLE_BUFFER_SIZE * F32.sizeof)
  | None => Frame [] (EXAMPLE_BUFFER_SIZE * F32.sizeof)
  end.

(** The calls of [main] about one endpoint, when they all succeed. *)
Definition endpoint_calls (endp : endpoint) (proto : roc_protocol) (port : Z)
    (iface : roc_interface) : list event :=
  [ EvCall (roc_endpoint_allocate endp) 0;
    EvDo (roc_endpoint_set_protocol endp proto);
    EvDo (roc_endpoint_set_host endp EXAMPLE_RECEIVER_IP);
    EvDo (roc_endpoint_set_port endp port);
    EvCall (roc_sender_connect iface endp) 0;
    EvCall (roc_endpoint_deallocate endp) 0 ].

(** The events of [main] before its loop, when every call succeeds. *)
Definition setup_events : list event :=
  [ EvDo (roc_log_set_level ROC_LOG_DEBUG);
    EvCall (roc_context_open context_config_zeroed) 0;
    EvCall (roc_sender_open
              (SenderConfig 44100 (Some ROC_CHANNEL_SET_STEREO)
                 (Some ROC_FRAME_ENCODING_PCM_FLOAT)
                 (Some ROC_CLOCK_INTERNAL))) 0 ]
  ++ endpoint_calls recv_source_endp ROC_PROTO_RTP_RS8M_SOURCE 10001
       ROC_INTERFACE_AUDIO_SOURCE
  ++ endpoint_calls recv_repair_endp ROC_PROTO_RS8M_REPAIR 10002
       ROC_INTERFACE_AUDIO_REPAIR.

Definition write_event (sin : spec_float -> spec_float) (i : Z) : event :=
  EvCall (roc_sender_write (batch_frame sin i)) 0.

Definition teardown_events : list event :=
  [ EvCall roc_sender_close 0; EvCall roc_context_close 0 ].

(** The whole run when every call succeeds, with [n] rounds of the loop. *)
Definition scenario (sin : spec_float -> spec_float) (n : Z) : list event :=
  setup_events ++ (write_event sin <$> seqZ 0 n) ++ teardown_events.

(** The C name of a library function. *)
Definition call_name (c : call) : string :=
  match c with
  | roc_log_set_level _ => "roc_log_set_level"
  | roc_context_open _ => "roc_context_open"
  | roc_sender_open _ => "roc_sender_open"
  | roc_endpoint_allocate _ => "roc_endpoint_allocate"
  | roc_endpoint_set_protocol _ _ => "roc_endpoint_set_protocol"
  | roc_endpoint_set_host _ _ => "roc_endpoint_set_host"
  | roc_endpoint_set_port _ _ => "roc_endpoint_set_port"
  | roc_sender_connect _ _ => "roc_sender_connect"
  | roc_endpoint_deallocate _ => "roc_endpoint_deallocate"
  | roc_sender_write _ => "roc_sender_write"
  | roc_sender_close => "roc_sender_close"
  | roc_context_close => "roc_context_close"
  end.

(** A run that follows [ok] up to its [n]-th event, a call that this time
    returns [r <> 0], and stops after the message of [oops]. *)
Definition failed_at (env : environment) (ok t : list event) : Prop :=
  exists (n : nat) (c : call) (r : Z),
    r <> 0
    /\ (exists past, r = env past c)
    /\ ok !! n = Some (EvCall c 0)
    /\ t = take n ok
           ++ [EvCall c r; EvStderr ("oops: " ++ call_name c ++ newline)%string].

(** [p] either produces the events [ok] and returns [a], or fails at one of
    the calls of [ok] and exits with status 1. *)
Definition runs_as {A : Type} (p : prog A) (ok : list event) (a : A) : Prop :=
  forall (env : environment) (past : list event),
    run env past p = (ok, Returned a)
    \/ (exists t, run env past p = (t, Exited 1) /\ failed_at env ok t).

Definition is_write (e : event) : bool :=
  match e with EvCall (roc_sender_write _) _ => true | _ => false end.

(** An environment in which the calls selected by [f] fail with -1. *)
Definition fail_on (f : call -> bool) : environment :=
  fun _ c => if f c then -1 else 0.

Definition is_sender_open (c : call) : bool :=
  match c with roc_sender_open _ => true | _ => false end.
Definition is_sender_write (c : call) : bool :=
  match c with roc_sender_write _ => true | _ => false end.

(** What the configured frame format says about a frame. *)
Definition channels_of (cs : roc_channel_set) : Z :=
  match cs with ROC_CHANNEL_SET_STEREO => 2 end.
Definition bytes_per_sample (enc : roc_frame_encoding) : Z :=
  match enc with ROC_FRAME_ENCODING_PCM_FLOAT => F32.sizeof end.

(** The library call an event records, if any, and the calls of a trace in
    the order they were made. *)
Definition call_of (e : event) : option call :=
  match e with
  | EvCall c _ => Some c
  | EvDo c => Some c
  | EvStderr _ => None
  end.
Definition calls (t : list event) : list call := omap call_of t.

(** The three steps that set the sender session up. *)
Inductive setup_step : Type := OpenSender | ConnectSource | ConnectRepair.

Definition is_step (k : setup_step) (c : call) : bool :=
  match k, c with
  | OpenSender, roc_sender_open _ => true
  | ConnectSource, roc_sender_connect ROC_INTERFACE_AUDIO_SOURCE _ => true
  | ConnectRepair, roc_sender_connect ROC_INTERFACE_AUDIO_REPAIR _ => true
  | _, _ => false
  end.

Definition same_endpoint (a b : endpoint) : bool :=
  match a, b with
  | recv_source_endp, recv_source_endp => true
  | recv_repair_endp, recv_repair_endp => true
  | _, _ => false
  end.

(** Whether a call takes the endpoint [endp] as an argument. *)
Definition mentions (endp : endpoint) (c : call) : bool :=
  match c with
  | roc_endpoint_allocate e | roc_endpoint_set_protocol e _
  | roc_endpoint_set_host e _ | roc_endpoint_set_port e _
  | roc_sender_connect _ e | roc_endpoint_deallocate e => same_endpoint endp e
  | _ => false
  end.

(** The life of an endpoint descriptor in the example. *)
Definition endpoint_lifecycle (endp : endpoint) : list call :=
  match endp with
  | recv_source_endp =>
      [ roc_endpoint_allocate recv_source_endp;
        roc_endpoint_set_protocol recv_source_endp ROC_PROTO_RTP_RS8M_SOURCE;
        roc_endpoint_set_host recv_source_endp "127.0.0.1";
        roc_endpoint_set_port recv_source_endp 10001;
        roc_sender_connect ROC_INTERFACE_AUDIO_SOURCE recv_source_endp;
        roc_endpoint_deallocate recv_source_endp ]
  | recv_repair_endp =>
      [ roc_endpoint_allocate recv_repair_endp;
        roc_endpoint_set_protocol recv_repair_endp ROC_PROTO_RS8M_REPAIR;
        roc_endpoint_set_host recv_repair_endp "127.0.0.1";
        roc_endpoint_set_port recv_repair_endp 10002;
        roc_sender_connect ROC_INTERFACE_AUDIO_REPAIR recv_repair_endp;
        roc_endpoint_deallocate recv_repair_endp ]
  end.

(** Whether an event is a call connecting the sender to [endp]. *)
Definition connects (endp : endpoint) (e : event) : bool :=
  match e with
  | EvCall (roc_sender_connect _ e') _ => same_endpoint endp e'
  | _ => false
  end.

(* ================================================================== *)
(** * Properties of [gensine] *)

(** Linear arithmetic with quotients and remainders by constants. *)
Ltac div_lia := Z.to_euclidean_division_equations; lia.

Lemma store_in_range (b : buffer) (idx : Z) (v : spec_float) :
  0 <= idx < Z.of_nat (length (cells b)) ->
  store b idx v
  = Some (Buffer (<[Z.to_nat idx := Some v]> (cells b)) (stored b ++ [idx])).
Proof.
  intros [Hlo Hhi]. unfold store.
  apply Z.leb_le in Hlo; apply Z.ltb_lt in Hhi.
  now rewrite Hlo, Hhi.
Qed.

Lemma wrap_small (z : Z) : 0 <= z < SizeT.modulus -> SizeT.wrap z = z.
Proof. apply Z.mod_small. Qed.

Lemma pair_indices_S (i : Z) (k : nat) :
  pair_indices i (S k) = i * 2 :: i * 2 + 1 :: pair_indices (i + 1) k.
Proof.
  unfold pair_indices.
  rewrite seqZ_cons by lia.
  replace (Z.pred (Z.of_nat (S k))) with (Z.of_nat k) by lia.
  replace (Z.succ i) with (i + 1) by lia.
  reflexivity.
Qed.

(** What [k] runs of the loop body do to an array that is long enough. *)
Lemma gensine_loop_spec (sin : spec_float -> spec_float) (k : nat) :
  forall (i : Z) (t : spec_float) (b : buffer),
    0 <= i ->
    2 * (i + Z.of_nat k) <= Z.of_nat (length (cells b)) ->
    Z.of_nat (length (cells b)) < SizeT.modulus ->
    exists b',
      gensine_loop sin k i t b = Some b'
      /\ length (cells b') = length (cells b)
      /\ stored b' = stored b ++ pair_indices i k
      /\ (forall j : nat, (j < k)%nat ->
            cells b' !! Z.to_nat (2 * (i + Z.of_nat j))
            = Some (Some (sample_at sin (Nat.iter j next_time t)))
            /\ cells b' !! Z.to_nat (2 * (i + Z.of_nat j) + 1)
               = Some (Some (F32.opp (sample_at sin (Nat.iter j next_time t)))))
      /\ (forall n : nat, Z.of_nat n < 2 * i -> cells b' !! n = cells b !! n).
Proof.
  induction k as [|k IH]; intros i t b Hi Hlen Hmod.
  - exists b. simpl. repeat split; try lia.
    unfold pair_indices. simpl. now rewrite app_nil_r.
  - cbn [gensine_loop].
    assert (Hm2 : SizeT.mul i 2 = i * 2).
    { unfold SizeT.mul. apply wrap_small. lia. }
    assert (Ha1 : SizeT.add (i * 2) 1 = i * 2 + 1).
    { unfold SizeT.add. apply wrap_small. lia. }
    assert (Hi1 : SizeT.add i 1 = i + 1).
    { unfold SizeT.add. apply wrap_small. lia. }
    rewrite Hm2, Ha1, Hi1.
    rewrite store_in_range by lia. cbn [mbind option_bind].
    rewrite store_in_range by (cbn [cells]; rewrite length_insert; lia).
    cbn [mbind option_bind cells stored].
    set (s := sample_at sin t).
    set (b2 := Buffer _ _).
    destruct (IH (i + 1) (next_time t) b2) as (b' & Hrun & Hl & Hst & Hpairs & Hold).
    { lia. }
    { subst b2. cbn [cells]. rewrite !length_insert. lia. }
    { subst b2. cbn [cells]. rewrite !length_insert. lia. }
    exists b'. split; [exact Hrun|].
    split. { rewrite Hl. subst b2. cbn [cells]. now rewrite !length_insert. }
    split. { rewrite Hst. subst b2. cbn [stored].
             rewrite pair_indices_S, <- !app_assoc. reflexivity. }
    split.
    + intros j Hj. destruct j as [|j].
      * cbn [Nat.iter nat_rect]. rewrite !Hold by lia.
        subst b2. cbn [cells]. split.
        -- rewrite list_lookup_insert_ne by lia.
           replace (Z.to_nat (2 * (i + Z.of_nat 0))) with (Z.to_nat (i * 2)) by lia.
           rewrite list_lookup_insert_eq by lia. reflexivity.
        -- replace (Z.to_nat (2 * (i + Z.of_nat 0) + 1))
             with (Z.to_nat (i * 2 + 1)) by lia.
           rewrite list_lookup_insert_eq by (rewrite length_insert; lia).
           reflexivity.
      * rewrite Nat.iter_succ_r.
        destruct (Hpairs j ltac:(lia)) as [He Ho].
        replace (2 * (i + Z.of_nat (S j))) with (2 * (i + 1 + Z.of_nat j)) by lia.
        split; assumption.
    + intros n Hn. rewrite Hold by lia. subst b2. cbn [cells].
      rewrite !list_lookup_insert_ne by lia. reflexivity.
Qed.

Lemma count_pair_indices (idx : Z) (k : nat) :
  forall i : Z,
    length (filter (eq idx) (pair_indices i k))
    = if decide (2 * i <= idx < 2 * (i + Z.of_nat k)) then 1%nat else 0%nat.
Proof.
  induction k as [|k IH]; intros i.
  - unfold pair_indices. simpl. destruct (decide _); [lia|reflexivity].
  - rewrite pair_indices_S.
    rewrite !filter_cons.
    repeat (destruct (decide _)); cbn [length]; rewrite IH;
      destruct (decide _); lia.
Qed.

Lemma elem_of_pair_indices (idx i : Z) (k : nat) :
  idx ∈ pair_indices i k ->
  exists j, i <= j < i + Z.of_nat k /\ (idx = j * 2 \/ idx = j * 2 + 1).
Proof.
  unfold pair_indices. intros H.
  apply list_elem_of_bind in H as (j & Hidx & Hj).
  apply elem_of_seqZ in Hj.
  exists j. split; [lia|].
  apply elem_of_cons in Hidx as [->|Hidx]; [now left|].
  apply elem_of_cons in Hidx as [->|Hidx]; [now right|].
  now apply elem_of_nil in Hidx.
Qed.

(** [gensine] on an array of [num_samples] cells: it returns, and where. *)
Lemma gensine_spec (sin : spec_float -> spec_float) (b : buffer)
    (batch_num num_samples : Z) :
  SizeT.valid num_samples ->
  Z.of_nat (length (cells b)) = num_samples ->
  exists b',
    gensine sin b batch_num num_samples = Some b'
    /\ length (cells b') = length (cells b)
    /\ stored b' = stored b ++ pair_indices 0 (Z.to_nat (num_samples / 2))
    /\ (forall j : nat, Z.of_nat j < num_samples / 2 ->
          cells b' !! (2 * j)%nat
          = Some (Some (sample_at sin (gensine_time batch_num num_samples j)))
          /\ cells b' !! (2 * j + 1)%nat
             = Some (Some (F32.opp
                             (sample_at sin
                                (gensine_time batch_num num_samples j))))).
Proof.
  intros [Hlo Hhi] Hlen. unfold gensine, SizeT.div.
  assert (Hdiv : 0 <= num_samples / 2) by (apply Z.div_pos; lia).
  assert (Hdiv2 : 2 * (num_samples / 2) <= num_samples).
  { apply Z.mul_div_le. lia. }
  destruct (gensine_loop_spec sin (Z.to_nat (num_samples / 2)) 0
              (F64.of_Z (gensine_start batch_num num_samples)) b)
    as (b' & Hrun & Hl & Hst & Hpairs & _); try lia.
  exists b'. repeat split; try assumption.
  - destruct (Hpairs j ltac:(lia)) as [He _].
    replace (Z.to_nat (2 * (0 + Z.of_nat j))) with (2 * j)%nat in He by lia.
    exact He.
  - destruct (Hpairs j ltac:(lia)) as [_ Ho].
    replace (Z.to_nat (2 * (0 + Z.of_nat j) + 1)) with (2 * j + 1)%nat in Ho by lia.
    exact Ho.
Qed.

(** C8. [gensine] never stores outside the array: on an array of
    [num_samples] cells it returns, whatever [batch_num] is; every store goes
    to an index [i*2] or [i*2+1] with [i < num_samples/2], which is at most
    [num_samples - 1]; and when [num_samples] is even, every index of the
    array is stored to exactly once, so that no cell is left empty. *)
Theorem gensine_stays_in_bounds (sin : spec_float -> spec_float) (b : buffer)
    (batch_num num_samples : Z) :
  SizeT.valid num_samples ->
  Z.of_nat (length (cells b)) = num_samples ->
  exists (b' : buffer) (new : list Z),
    gensine sin b batch_num num_samples = Some b'
    /\ length (cells b') = length (cells b)
    /\ stored b' = stored b ++ new
    /\ Forall (fun idx =>
                (exists i, 0 <= i < num_samples / 2
                           /\ (idx = i * 2 \/ idx = i * 2 + 1))
                /\ 0 <= idx <= num_samples - 1) new
    /\ (Z.even num_samples = true ->
        forall idx, 0 <= idx < num_samples ->
          length (filter (eq idx) new) = 1%nat
          /\ exists v, cells b' !! Z.to_nat idx = Some (Some v)).
Proof.
  intros Hvalid Hlen.
  destruct (gensine_spec sin b batch_num num_samples Hvalid Hlen)
    as (b' & Hrun & Hl & Hst & Hcells).
  destruct Hvalid as [Hlo Hhi].
  assert (Hdiv : 0 <= num_samples / 2) by (apply Z.div_pos; lia).
  assert (Hdiv2 : 2 * (num_samples / 2) <= num_samples).
  { apply Z.mul_div_le. lia. }
  exists b', (pair_indices 0 (Z.to_nat (num_samples / 2))).
  repeat split; try assumption.
  - apply Forall_forall. intros idx Hin.
    apply elem_of_pair_indices in Hin as (j & Hj & Hidx).
    split; [exists j; split; [lia|exact Hidx] | lia].
  - rewrite count_pair_indices.
    apply Z.even_spec in H as [h Hh].
    assert (num_samples / 2 = h) by div_lia.
    destruct (decide _); [reflexivity | lia].
  - apply Z.even_spec in H as [h Hh].
    assert (Hhalf : num_samples / 2 = h) by div_lia.
    destruct (Hcells (Z.to_nat (idx / 2))) as [He Ho].
    { rewrite Z2Nat.id by (apply Z.div_pos; lia).
      rewrite Hhalf. apply Z.div_lt_upper_bound; lia. }
    destruct (Z.eq_dec (idx mod 2) 0) as [Hev|Hodd].
    + eexists. rewrite <- He. f_equal.
      pose proof (Z.div_mod idx 2 ltac:(lia)).
      assert (0 <= idx / 2) by (apply Z.div_pos; lia). lia.
    + eexists. rewrite <- Ho. f_equal.
      pose proof (Z.div_mod idx 2 ltac:(lia)).
      pose proof (Z.mod_pos_bound idx 2 ltac:(lia)).
      assert (0 <= idx / 2) by (apply Z.div_pos; lia). lia.
Qed.

Lemma gensine_stays_in_bounds_witness :
  SizeT.valid 100
  /\ exists b' new,
       gensine flat_sin (fresh_buffer 100) 7 100 = Some b'
       /\ stored b' = new /\ length new = 100%nat.
Proof.
  split; [unfold SizeT.valid, SizeT.modulus, SizeT.bits; lia|].
  destruct (gensine_stays_in_bounds flat_sin (fresh_buffer 100) 7 100)
    as (b' & new & Hrun & _ & Hst & _ & _).
  - unfold SizeT.valid, SizeT.modulus, SizeT.bits; lia.
  - reflexivity.
  - exists b', new. split; [exact Hrun|]. split; [exact Hst|].
    vm_compute in Hrun. injection Hrun as <-. simpl in Hst. now subst new.
Defined.

(** On an array that is too short the store that leaves it is caught. *)
Example gensine_short_array :
  gensine flat_sin (fresh_buffer 3) 0 4 = None.
Proof. reflexivity. Qed.

(* ================================================================== *)
(** * Runs of programs *)

Lemma run_bind {A B : Type} (env : environment) (f : A -> prog B) (p : prog A) :
  forall past,
    run env past (p ≫= f)
    = match run env past p with
      | (t, Returned a) =>
          let '(t', o) := run env (reverse t ++ past) (f a) in (t ++ t', o)
      | (t, Exited status) => (t, Exited status)
      | (t, Crashed) => (t, Crashed)
      end.
Proof.
  unfold mbind, prog_mbind.
  induction p as [a|c k IH|c k IH|text k IH|status|]; intros past; cbn [prog_bind run].
  - change (reverse [] ++ past) with past.
    destruct (run env past (f a)) as [t o]. reflexivity.
  - rewrite IH. destruct (run env _ (k _)) as [t [a|status|]]; try reflexivity.
    rewrite reverse_cons, <- app_assoc. cbn [app].
    destruct (run env _ (f a)) as [t' o]. reflexivity.
  - rewrite IH. destruct (run env _ k) as [t [a|status|]]; try reflexivity.
    rewrite reverse_cons, <- app_assoc. cbn [app].
    destruct (run env _ (f a)) as [t' o]. reflexivity.
  - rewrite IH. destruct (run env _ k) as [t [a|status|]]; try reflexivity.
    rewrite reverse_cons, <- app_assoc. cbn [app].
    destruct (run env _ (f a)) as [t' o]. reflexivity.
  - reflexivity.
  - reflexivity.
Qed.

Lemma failed_at_app_l (env : environment) (ok1 ok2 t : list event) :
  failed_at env ok1 t -> failed_at env (ok1 ++ ok2) t.
Proof.
  intros (n & c & r & Hr & Henv & Hn & Ht).
  exists n, c, r. repeat split; try assumption.
  - rewrite lookup_app_l; [exact Hn|]. eapply lookup_lt_Some; eassumption.
  - rewrite take_app_le; [exact Ht|].
    apply Nat.lt_le_incl. eapply lookup_lt_Some; eassumption.
Qed.

Lemma failed_at_app_r (env : environment) (ok1 ok2 t : list event) :
  failed_at env ok2 t -> failed_at env (ok1 ++ ok2) (ok1 ++ t).
Proof.
  intros (n & c & r & Hr & Henv & Hn & Ht).
  exists (length ok1 + n)%nat, c, r. repeat split; try assumption.
  - rewrite lookup_app_r by lia.
    replace (length ok1 + n - length ok1)%nat with n by lia. exact Hn.
  - rewrite take_app_add', <- app_assoc by reflexivity. now rewrite Ht.
Qed.

Lemma runs_as_ret {A : Type} (a : A) : runs_as (Ret a) [] a.
Proof. intros env past. now left. Qed.

Lemma runs_as_bind {A B : Type} (p : prog A) (f : A -> prog B)
    (ok1 ok2 : list event) (a : A) (b : B) :
  runs_as p ok1 a -> runs_as (f a) ok2 b -> runs_as (p ≫= f) (ok1 ++ ok2) b.
Proof.
  intros Hp Hf env past. rewrite run_bind.
  destruct (Hp env past) as [->|(t & -> & Hfail)].
  - destruct (Hf env (reverse ok1 ++ past)) as [->|(t & -> & Hfail)].
    + now left.
    + right. exists (ok1 ++ t). split; [reflexivity|].
      now apply failed_at_app_r.
  - right. exists t. split; [reflexivity|]. now apply failed_at_app_l.
Qed.

Lemma runs_as_do (c : call) : runs_as (do_ c) [EvDo c] tt.
Proof. intros env past. now left. Qed.

(** [if (f(...) != 0) { oops("f"); }] *)
Lemma runs_as_checked (c : call) (msg : string) :
  msg = call_name c ->
  runs_as (r ← call_ c; when (negb (r =? 0)) (oops msg)) [EvCall c 0] tt.
Proof.
  intros -> env past. unfold mbind, prog_mbind, call_. cbn [prog_bind run].
  destruct (Z.eqb_spec (env past c) 0) as [Hr|Hr].
  - left. now rewrite Hr.
  - right. eexists. split; [reflexivity|].
    exists 0%nat, c, (env past c). repeat split; try assumption.
    now exists past.
Qed.

Lemma run_bind_assoc {A B C : Type} (env : environment)
    (f : A -> prog B) (g : B -> prog C) (p : prog A) :
  forall past,
    run env past (p ≫= (fun x => f x ≫= g)) = run env past ((p ≫= f) ≫= g).
Proof.
  unfold mbind, prog_mbind.
  induction p as [a|c k IH|c k IH|text k IH|status|]; intros past;
    cbn [prog_bind run]; try reflexivity; now rewrite IH.
Qed.

Lemma runs_as_checked_then {A : Type} (c : call) (msg : string)
    (rest : prog A) (ok : list event) (a : A) :
  msg = call_name c ->
  runs_as rest ok a ->
  runs_as (r ← call_ c; when (negb (r =? 0)) (oops msg) ;; rest)
    (EvCall c 0 :: ok) a.
Proof.
  intros Hmsg Hrest env past.
  rewrite (run_bind_assoc env
             (fun r => when (negb (r =? 0)) (oops msg)) (fun _ => rest)).
  revert env past. change (EvCall c 0 :: ok) with ([EvCall c 0] ++ ok).
  eapply runs_as_bind; [now apply runs_as_checked | exact Hrest].
Qed.

Lemma runs_as_do_then {A : Type} (c : call) (rest : prog A)
    (ok : list event) (a : A) :
  runs_as rest ok a -> runs_as (do_ c ;; rest) (EvDo c :: ok) a.
Proof.
  intros Hrest. change (EvDo c :: ok) with ([EvDo c] ++ ok).
  eapply runs_as_bind; [apply runs_as_do | exact Hrest].
Qed.

Lemma runs_as_for_loop (body : Z -> prog unit) (ev : Z -> event) (k : nat) :
  forall i : Z,
    0 <= i -> i + Z.of_nat k < SizeT.modulus ->
    (forall j, i <= j < i + Z.of_nat k -> runs_as (body j) [ev j] tt) ->
    runs_as (for_loop k i body) (ev <$> seqZ i (Z.of_nat k)) tt.
Proof.
  induction k as [|k IH]; intros i Hi Hmax Hbody.
  - apply runs_as_ret.
  - rewrite seqZ_cons by lia. rewrite fmap_cons.
    replace (Z.pred (Z.of_nat (S k))) with (Z.of_nat k) by lia.
    cbn [for_loop].
    change (ev i :: (ev <$> seqZ (Z.succ i) (Z.of_nat k)))
      with ([ev i] ++ (ev <$> seqZ (Z.succ i) (Z.of_nat k))).
    eapply runs_as_bind; [apply Hbody; lia|].
    replace (SizeT.add i 1) with (Z.succ i)
      by (unfold SizeT.add; rewrite wrap_small; lia).
    apply IH; [lia|lia|]. intros j Hj. apply Hbody. lia.
Qed.

(** * Runs of [main] *)

Lemma example_buffer_valid :
  SizeT.valid EXAMPLE_BUFFER_SIZE
  /\ Z.of_nat (length (cells (fresh_buffer EXAMPLE_BUFFER_SIZE)))
     = EXAMPLE_BUFFER_SIZE.
Proof.
  split; [unfold SizeT.valid, SizeT.modulus, SizeT.bits, EXAMPLE_BUFFER_SIZE; lia|].
  reflexivity.
Qed.

Lemma runs_as_write_batch (sin : spec_float -> spec_float) (i : Z) :
  runs_as (write_batch sin i) [write_event sin i] tt.
Proof.
  unfold write_batch, write_event, batch_frame.
  destruct example_buffer_valid as [Hv Hl].
  destruct (gensine_spec sin (fresh_buffer EXAMPLE_BUFFER_SIZE) i
              EXAMPLE_BUFFER_SIZE Hv Hl) as (b' & -> & _).
  now apply runs_as_checked.
Qed.

Lemma runs_as_connect_endpoint (endp : endpoint) (proto : roc_protocol)
    (port : Z) (iface : roc_interface) :
  runs_as (connect_endpoint endp proto port iface)
    (endpoint_calls endp proto port iface) tt.
Proof.
  unfold connect_endpoint, endpoint_calls.
  apply runs_as_checked_then; [reflexivity|].
  do 3 apply runs_as_do_then.
  apply runs_as_checked_then; [reflexivity|].
  now apply runs_as_checked.
Qed.

Lemma main_runs_as (sin : spec_float -> spec_float) :
  runs_as (main sin) (scenario sin 2205) 0.
Proof.
  unfold main, scenario, setup_events. rewrite <- !app_assoc.
  apply runs_as_do_then.
  apply runs_as_checked_then; [reflexivity|].
  apply runs_as_checked_then; [reflexivity|].
  eapply runs_as_bind; [apply runs_as_connect_endpoint|].
  eapply runs_as_bind; [apply runs_as_connect_endpoint|].
  eapply runs_as_bind.
  { apply (runs_as_for_loop (write_batch sin) (write_event sin) (Z.to_nat 2205) 0).
    - lia.
    - unfold SizeT.modulus, SizeT.bits. lia.
    - intros j _. apply runs_as_write_batch. }
  apply runs_as_checked_then; [reflexivity|].
  apply runs_as_checked_then; [reflexivity|].
  apply runs_as_ret.
Qed.

Lemma main_cases (sin : spec_float -> spec_float) (env : environment) :
  (trace sin env = scenario sin 2205 /\ result sin env = Returned 0)
  \/ (result sin env = Exited 1
      /\ failed_at env (scenario sin 2205) (trace sin env)).
Proof.
  unfold trace, result.
  destruct (main_runs_as sin env []) as [->|(t & -> & Hfail)].
  - left. now split.
  - right. split; [reflexivity|exact Hfail].
Qed.

Lemma main_all_succeed (sin : spec_float -> spec_float) (env : environment) :
  (forall past c, env past c = 0) ->
  trace sin env = scenario sin 2205 /\ result sin env = Returned 0.
Proof.
  intros Henv.
  destruct (main_cases sin env) as [[Ht Hr]|[_ Hfail]]; [now split|].
  destruct Hfail as (n & c & r & Hr & (past & ->) & _).
  now rewrite Henv in Hr.
Qed.

Lemma filter_is_write_writes (sin : spec_float -> spec_float) (l : list Z) :
  filter is_write (write_event sin <$> l) = write_event sin <$> l.
Proof.
  induction l as [|i l IH]; [reflexivity|].
  rewrite fmap_cons, filter_cons_True by exact I. now rewrite IH.
Qed.

Lemma scenario_writes (sin : spec_float -> spec_float) (n : Z) :
  filter is_write (scenario sin n) = write_event sin <$> seqZ 0 n.
Proof.
  unfold scenario. rewrite !filter_app, filter_is_write_writes.
  change (filter is_write setup_events) with (@nil event).
  change (filter is_write teardown_events) with (@nil event).
  now rewrite app_nil_r.
Qed.

Lemma batch_frame_shape (sin : spec_float -> spec_float) (i : Z) :
  length (samples (batch_frame sin i)) = 100%nat
  /\ samples_size (batch_frame sin i) = 100 * F32.sizeof
  /\ forall j : nat, (j < 50)%nat ->
       samples (batch_frame sin i) !! (2 * j)%nat
       = Some (Some (sample_at sin (gensine_time i 100 j)))
       /\ samples (batch_frame sin i) !! (2 * j + 1)%nat
          = Some (Some (F32.opp (sample_at sin (gensine_time i 100 j)))).
Proof.
  unfold batch_frame.
  destruct example_buffer_valid as [Hv Hl].
  destruct (gensine_spec sin (fresh_buffer EXAMPLE_BUFFER_SIZE) i
              EXAMPLE_BUFFER_SIZE Hv Hl) as (b' & -> & Hlen & _ & Hc).
  cbn [samples samples_size]. split; [|split].
  - rewrite Hlen. reflexivity.
  - reflexivity.
  - intros j Hj. apply Hc.
    change (EXAMPLE_BUFFER_SIZE / 2) with 50. lia.
Qed.

(** Every event of a run comes from the scenario: it is one of its events,
    the failing call in place of one, or the message of [oops]. *)
Lemma trace_event_origin (sin : spec_float -> spec_float) (env : environment)
    (e : event) :
  e ∈ trace sin env ->
  e ∈ scenario sin 2205
  \/ (exists c r, e = EvCall c r /\ r <> 0 /\ EvCall c 0 ∈ scenario sin 2205)
  \/ (exists text, e = EvStderr text).
Proof.
  intros Hin.
  destruct (main_cases sin env) as [(Ht & _)|[_ Hfail]].
  - left. now rewrite <- Ht.
  - destruct Hfail as (n & c & r & Hr & _ & Hn & Ht).
    rewrite Ht in Hin. apply elem_of_app in Hin as [Hin|Hin].
    + left. apply elem_of_take in Hin as (i & Hi & _).
      eapply list_elem_of_lookup_2; eassumption.
    + apply elem_of_cons in Hin as [->|Hin].
      * right; left. exists c, r. repeat split; try assumption.
        eapply list_elem_of_lookup_2; eassumption.
      * apply list_elem_of_singleton in Hin as ->. right; right. eauto.
Qed.

Lemma written_frames (sin : spec_float -> spec_float) (env : environment)
    (frame : roc_frame) (r : Z) :
  EvCall (roc_sender_write frame) r ∈ trace sin env ->
  exists i, 0 <= i < 2205 /\ frame = batch_frame sin i.
Proof.
  intros Hin.
  assert (Hsc : exists r', EvCall (roc_sender_write frame) r' ∈ scenario sin 2205).
  { apply trace_event_origin in Hin as [Hin|[(c & r' & [= <- <-] & _ & Hin)|(text & [=])]];
      eauto. }
  destruct Hsc as (r' & Hsc).
  assert (Hw : EvCall (roc_sender_write frame) r' ∈ filter is_write (scenario sin 2205)).
  { apply list_elem_of_filter. split; [exact I|exact Hsc]. }
  rewrite scenario_writes in Hw.
  apply list_elem_of_fmap in Hw as (i & Heq & Hi).
  apply elem_of_seqZ in Hi. exists i. split; [lia|].
  unfold write_event in Heq. congruence.
Qed.

(* ================================================================== *)
(** * The fixed scenario *)

Lemma scenario_write_count (sin : spec_float -> spec_float) (n : Z) :
  length (filter is_write (scenario sin n)) = Z.to_nat n.
Proof. now rewrite scenario_writes, length_fmap, length_seqZ. Qed.

Lemma all_succeed_ok : forall (past : list event) (c : call), all_succeed past c = 0.
Proof. reflexivity. Qed.

(** C1, as the code has it.  When every call succeeds, the run is the fixed
    scenario: context opened, sender opened with a sample rate of 44100,
    stereo, float PCM and the internal clock, the source endpoint
    127.0.0.1:10001 with RTP+RS8M-source connected and released, the repair
    endpoint 127.0.0.1:10002 with RS8M-repair connected and released, then
    [roc_sender_write] called exactly 2205 times, each time with a frame of
    100 samples (2205 * 100 = 220500 = [EXAMPLE_SINE_SAMPLES] samples in
    all), then sender and context closed and [main] returning 0. *)
Theorem main_writes_2205_frames (sin : spec_float -> spec_float)
    (env : environment) :
  (forall past c, env past c = 0) ->
  trace sin env = scenario sin 2205
  /\ result sin env = Returned 0
  /\ length (filter is_write (trace sin env)) = 2205%nat
  /\ (forall frame r,
        EvCall (roc_sender_write frame) r ∈ trace sin env ->
        length (samples frame) = 100%nat)
  /\ 2205 * 100 = EXAMPLE_SINE_SAMPLES.
Proof.
  intros Henv. destruct (main_all_succeed sin env Henv) as [Ht Hr].
  split; [exact Ht|]. split; [exact Hr|]. split; [|split].
  - rewrite Ht, scenario_write_count. reflexivity.
  - intros frame r Hin.
    apply written_frames in Hin as (i & _ & ->).
    apply batch_frame_shape.
  - reflexivity.
Qed.

Lemma main_writes_2205_frames_witness :
  length (filter is_write (trace flat_sin all_succeed)) = 2205%nat.
Proof.
  destruct (main_writes_2205_frames flat_sin all_succeed all_succeed_ok)
    as (_ & _ & Hcount & _).
  exact Hcount.
Defined.

(** C1 as stated fails: in the run where every call succeeds the number of
    calls of [roc_sender_write] is not 22. *)
Lemma main_does_not_write_22_frames :
  length (filter is_write (trace flat_sin all_succeed)) <> 22%nat.
Proof.
  destruct (main_all_succeed flat_sin all_succeed all_succeed_ok) as [-> _].
  rewrite scenario_write_count. lia.
Qed.

(* ================================================================== *)
(** * Exit status *)

Lemma scenario_results_zero (sin : spec_float -> spec_float) (n : Z) :
  Forall (fun e => forall c r, e = EvCall c r -> r = 0) (scenario sin n).
Proof.
  unfold scenario. rewrite !Forall_app. split; [|split].
  - unfold setup_events, endpoint_calls. cbn [app].
    repeat constructor; intros c r [=]; congruence.
  - apply Forall_fmap, Forall_forall. intros i _ c r.
    unfold compose, write_event. congruence.
  - repeat constructor; intros c r [=]; congruence.
Qed.

(** C2, as the code has it.  A run of [main] always ends with an exit status,
    which is 0 exactly when every library call whose result [main] inspects
    returned 0.  Otherwise the status is 1, whichever call failed, and the
    run ends with the failing call followed by the line
    "oops: <name of the function>" on stderr. *)
Theorem exit_status_zero_iff_checked_calls_succeed
    (sin : spec_float -> spec_float) (env : environment) :
  exists code : Z,
    exit_code (result sin env) = Some code
    /\ (code = 0 <->
        Forall (fun e => forall c r, e = EvCall c r -> r = 0) (trace sin env))
    /\ (code <> 0 ->
        code = 1
        /\ exists t c r,
             r <> 0
             /\ trace sin env
                = t ++ [EvCall c r;
                        EvStderr ("oops: " ++ call_name c ++ newline)%string]).
Proof.
  destruct (main_cases sin env) as [[Ht Hr]|[Hr Hfail]].
  - exists 0. rewrite Hr, Ht. split; [reflexivity|]. split; [|congruence].
    split; [intros _; apply scenario_results_zero|reflexivity].
  - exists 1. rewrite Hr. split; [reflexivity|].
    destruct Hfail as (n & c & r & Hnz & _ & _ & Ht).
    split; [split; [discriminate|]|].
    + intros Hall. exfalso. rewrite Ht in Hall.
      apply Forall_app in Hall as [_ Hall].
      apply Forall_cons in Hall as [Hc _].
      apply Hnz, (Hc c r eq_refl).
    + intros _. split; [reflexivity|]. exists (take n (scenario sin 2205)), c, r.
      split; assumption.
Qed.

Lemma exit_status_zero_iff_checked_calls_succeed_witness :
  exists code : Z,
    exit_code (result flat_sin (fail_on is_sender_write)) = Some code
    /\ (code <> 0 -> code = 1).
Proof.
  destruct (exit_status_zero_iff_checked_calls_succeed flat_sin
              (fail_on is_sender_write)) as (code & Hcode & _ & Hfail).
  exists code. split; [exact Hcode|]. intros Hnz. now apply Hfail.
Defined.

(** C2 as stated fails: a run in which opening the sender fails (an error of
    configuration) and a run in which a write fails (backpressure or
    transport) exit with the same status, 1. *)
Lemma exit_status_same_for_open_and_write_failure :
  exit_code (result flat_sin (fail_on is_sender_open)) = Some 1
  /\ exit_code (result flat_sin (fail_on is_sender_write)) = Some 1.
Proof. split; vm_compute; reflexivity. Qed.

(* ================================================================== *)
(** * The frames handed to [roc_sender_write] *)

Lemma sender_open_config (sin : spec_float -> spec_float) (env : environment)
    (config : roc_sender_config) (r : Z) :
  EvCall (roc_sender_open config) r ∈ trace sin env ->
  config = SenderConfig 44100 (Some ROC_CHANNEL_SET_STEREO)
             (Some ROC_FRAME_ENCODING_PCM_FLOAT) (Some ROC_CLOCK_INTERNAL).
Proof.
  intros Hin.
  assert (Hsc : exists r', EvCall (roc_sender_open config) r' ∈ scenario sin 2205).
  { apply trace_event_origin in Hin
      as [Hin|[(c & r' & Heq & _ & Hin)|(text & Heq)]];
      [eauto | injection Heq as <- <-; eauto | discriminate]. }
  destruct Hsc as (r' & Hsc). unfold scenario in Hsc.
  rewrite !elem_of_app in Hsc. destruct Hsc as [Hsc|[Hsc|Hsc]].
  - unfold setup_events, endpoint_calls in Hsc. cbn [app] in Hsc.
    repeat (apply elem_of_cons in Hsc as [Hsc|Hsc]; [congruence|]).
    now apply elem_of_nil in Hsc.
  - apply list_elem_of_fmap in Hsc as (i & Heq & _). discriminate.
  - unfold teardown_events in Hsc.
    repeat (apply elem_of_cons in Hsc as [Hsc|Hsc]; [congruence|]).
    now apply elem_of_nil in Hsc.
Qed.

(** C4. Every frame the example passes to [roc_sender_write] is well formed
    for the format the sender was opened with (stereo, float PCM): it has 100
    samples, a whole multiple of the channel count 2, and its declared byte
    length is the sample count times the size of a sample,
    100 * sizeof(float). *)
Theorem written_frames_well_formed (sin : spec_float -> spec_float)
    (env : environment) (config : roc_sender_config) (frame : roc_frame)
    (r0 r : Z) :
  EvCall (roc_sender_open config) r0 ∈ trace sin env ->
  EvCall (roc_sender_write frame) r ∈ trace sin env ->
  exists (cs : roc_channel_set) (enc : roc_frame_encoding),
    frame_channels config = Some cs
    /\ frame_encoding config = Some enc
    /\ Z.of_nat (length (samples frame)) = EXAMPLE_BUFFER_SIZE
    /\ EXAMPLE_BUFFER_SIZE = 100
    /\ channels_of cs = 2
    /\ Z.of_nat (length (samples frame)) mod channels_of cs = 0
    /\ bytes_per_sample enc = F32.sizeof
    /\ samples_size frame
       = Z.of_nat (length (samples frame)) * bytes_per_sample enc.
Proof.
  intros Hopen Hwrite.
  apply sender_open_config in Hopen as ->.
  apply written_frames in Hwrite as (i & _ & ->).
  destruct (batch_frame_shape sin i) as (Hlen & Hsize & _).
  exists ROC_CHANNEL_SET_STEREO, ROC_FRAME_ENCODING_PCM_FLOAT.
  rewrite Hlen, Hsize. repeat split; reflexivity.
Qed.

Lemma scenario_lookup_setup (sin : spec_float -> spec_float) (n : Z) (i : nat) :
  (i < 15)%nat -> scenario sin n !! i = setup_events !! i.
Proof. intros Hi. unfold scenario. now rewrite lookup_app_l by exact Hi. Qed.

Lemma scenario_lookup_write (sin : spec_float -> spec_float) (n : Z) (i : nat) :
  Z.of_nat i < n ->
  scenario sin n !! (15 + i)%nat = Some (write_event sin (Z.of_nat i)).
Proof.
  intros Hi. unfold scenario.
  rewrite lookup_app_r by (change (length setup_events) with 15%nat; lia).
  change (length setup_events) with 15%nat.
  replace (15 + i - 15)%nat with i by lia.
  rewrite lookup_app_l by (rewrite length_fmap, length_seqZ; lia).
  rewrite list_lookup_fmap, lookup_seqZ_lt by exact Hi. reflexivity.
Qed.

(** In the run where every call succeeds, the sender is opened and the
    first frame is written. *)
Lemma all_succeed_opens_and_writes :
  EvCall (roc_sender_open
            (SenderConfig 44100 (Some ROC_CHANNEL_SET_STEREO)
               (Some ROC_FRAME_ENCODING_PCM_FLOAT) (Some ROC_CLOCK_INTERNAL))) 0
    ∈ trace flat_sin all_succeed
  /\ EvCall (roc_sender_write (batch_frame flat_sin 0)) 0
       ∈ trace flat_sin all_succeed.
Proof.
  destruct (main_all_succeed flat_sin all_succeed all_succeed_ok) as [-> _].
  split.
  - apply (list_elem_of_lookup_2 _ 2). now rewrite scenario_lookup_setup by lia.
  - apply (list_elem_of_lookup_2 _ (15 + 0)).
    now rewrite scenario_lookup_write by lia.
Qed.

Lemma written_frames_well_formed_witness :
  Z.of_nat (length (samples (batch_frame flat_sin 0))) mod 2 = 0
  /\ samples_size (batch_frame flat_sin 0) = 100 * 4.
Proof.
  destruct all_succeed_opens_and_writes as [Hopen Hwrite].
  destruct (written_frames_well_formed flat_sin all_succeed _ _ 0 0 Hopen Hwrite)
    as (cs & enc & Hcs & Henc & Hlen & Hbuf & Hch & Hmod & Hbytes & Hsize).
  split.
  - rewrite <- Hch. exact Hmod.
  - rewrite Hsize, Hlen, Hbuf, Hbytes. reflexivity.
Defined.

(** Every frame handed to [roc_sender_write] is initialised throughout. *)
Lemma written_frames_initialised (sin : spec_float -> spec_float)
    (env : environment) (frame : roc_frame) (r : Z) :
  EvCall (roc_sender_write frame) r ∈ trace sin env ->
  Forall (fun c : cell => is_Some c) (samples frame).
Proof.
  intros Hwrite.
  apply written_frames in Hwrite as (i & _ & ->).
  destruct (batch_frame_shape sin i) as (Hlen & _ & Hpairs).
  apply Forall_lookup. intros k c Hk.
  assert (Hk100 : (k < 100)%nat)
    by (rewrite <- Hlen; eapply lookup_lt_Some; eassumption).
  destruct (Hpairs (Nat.div k 2)) as [He Ho].
  { apply Nat.Div0.div_lt_upper_bound. lia. }
  pose proof (Nat.div_mod_eq k 2) as Hdm.
  pose proof (Nat.mod_upper_bound k 2 ltac:(lia)) as Hm.
  unfold cell in *.
  destruct (Nat.eq_dec (Nat.modulo k 2) 0%nat) as [H0|H1].
  - replace (2 * Nat.div k 2)%nat with k in He by lia.
    rewrite He in Hk. injection Hk as <-. now eexists.
  - replace (2 * Nat.div k 2 + 1)%nat with k in Ho by lia.
    rewrite Ho in Hk. injection Hk as <-. now eexists.
Qed.

(** C9. In every frame the example hands to [roc_sender_write], the right
    channel is the exact negation of the left one: for every pair index [j],
    the cell [2j+1] holds the negation of the value in the cell [2j]. *)
Theorem right_channel_negates_left (sin : spec_float -> spec_float)
    (env : environment) (frame : roc_frame) (r : Z) (j : nat) :
  EvCall (roc_sender_write frame) r ∈ trace sin env ->
  (2 * j + 1 < length (samples frame))%nat ->
  exists s : spec_float,
    samples frame !! (2 * j)%nat = Some (Some s)
    /\ samples frame !! (2 * j + 1)%nat = Some (Some (F32.opp s)).
Proof.
  intros Hwrite Hj.
  apply written_frames in Hwrite as (i & _ & ->).
  destruct (batch_frame_shape sin i) as (Hlen & _ & Hpairs).
  rewrite Hlen in Hj.
  destruct (Hpairs j ltac:(lia)) as [Hl Hr].
  eexists. split; eassumption.
Qed.

Lemma right_channel_negates_left_witness :
  exists s : spec_float,
    samples (batch_frame flat_sin 0) !! 6%nat = Some (Some s)
    /\ samples (batch_frame flat_sin 0) !! 7%nat = Some (Some (F32.opp s)).
Proof.
  destruct all_succeed_opens_and_writes as [_ Hwrite].
  apply (right_channel_negates_left flat_sin all_succeed _ 0 3 Hwrite).
  vm_compute. lia.
Defined.

(* ================================================================== *)
(** * The order of the calls *)

Section ListSplitting.
Context {A : Type}.

(** An element with a property that nothing in [X] has lies beyond [X]. *)
Lemma app_cons_beyond (P : A -> Prop) (X : list A) :
  forall (Y t1 t2 : list A) (e : A),
    Forall (fun x => ~ P x) X -> P e ->
    t1 ++ e :: t2 = X ++ Y ->
    exists k, t1 = X ++ k /\ k ++ e :: t2 = Y.
Proof.
  induction X as [|x X IH]; intros Y t1 t2 e HX He Heq.
  - exists t1. now split.
  - apply Forall_cons in HX as [Hx HX].
    destruct t1 as [|a t1]; cbn [app] in Heq.
    + injection Heq as -> _. contradiction.
    + injection Heq as -> Heq.
      destruct (IH Y t1 t2 e HX He Heq) as (k & -> & Hk).
      exists k. now split.
Qed.

Lemma prefix_app_cases (l X Y : list A) :
  l `prefix_of` X ++ Y ->
  l `prefix_of` X \/ exists k, l = X ++ k /\ k `prefix_of` Y.
Proof.
  revert l. induction X as [|x X IH]; intros l Hl.
  - right. exists l. now split.
  - destruct l as [|a l]; [left; apply prefix_nil|].
    cbn [app] in Hl.
    pose proof (prefix_cons_inv_1 _ _ _ _ Hl) as ->.
    apply prefix_cons_inv_2 in Hl.
    destruct (IH l Hl) as [Hp|(k & -> & Hk)].
    + left. now apply prefix_cons.
    + right. exists k. now split.
Qed.

Lemma Forall_prefix (P : A -> Prop) (l1 l2 : list A) :
  l1 `prefix_of` l2 -> Forall P l2 -> Forall P l1.
Proof. intros [k ->] H. now apply Forall_app in H as [H _]. Qed.

Lemma filter_none (P : A -> Prop) `{!forall x, Decision (P x)} (l : list A) :
  Forall (fun x => ~ P x) l -> filter P l = [].
Proof.
  induction 1 as [|x l Hx _ IH]; [reflexivity|].
  now rewrite filter_cons_False.
Qed.
End ListSplitting.

Lemma calls_writes (sin : spec_float -> spec_float) (l : list Z) :
  calls (write_event sin <$> l)
  = (fun i => roc_sender_write (batch_frame sin i)) <$> l.
Proof.
  induction l as [|i l IH]; [reflexivity|].
  unfold calls in *. rewrite !fmap_cons. cbn [omap list_omap call_of write_event].
  now rewrite IH.
Qed.

Lemma calls_scenario (sin : spec_float -> spec_float) (n : Z) :
  calls (scenario sin n)
  = calls setup_events
    ++ ((fun i => roc_sender_write (batch_frame sin i)) <$> seqZ 0 n)
    ++ [roc_sender_close; roc_context_close].
Proof.
  unfold scenario. unfold calls at 1. rewrite !omap_app.
  fold (calls setup_events). fold (calls (write_event sin <$> seqZ 0 n)).
  now rewrite calls_writes.
Qed.

(** The calls of any run are an initial segment of those of the scenario. *)
Lemma trace_calls_prefix (sin : spec_float -> spec_float) (env : environment) :
  calls (trace sin env) `prefix_of` calls (scenario sin 2205).
Proof.
  destruct (main_cases sin env) as [(-> & _)|[_ Hfail]]; [reflexivity|].
  destruct Hfail as (n & c & r & _ & _ & Hn & ->).
  rewrite <- (take_drop_middle _ _ _ Hn) at 2.
  unfold calls. rewrite !omap_app. cbn [omap list_omap call_of].
  apply prefix_app. exists (omap call_of (drop (S n) (scenario sin 2205))).
  reflexivity.
Qed.

(** Whatever precedes a library call in a run is an initial segment of the
    scenario: all the earlier calls succeeded. *)
Lemma events_before_call (sin : spec_float -> spec_float) (env : environment)
    (t1 t2 : list event) (e : event) :
  trace sin env = t1 ++ e :: t2 ->
  is_Some (call_of e) ->
  t1 `prefix_of` scenario sin 2205.
Proof.
  intros Ht He.
  destruct (main_cases sin env) as [(Hs & _)|[_ Hfail]].
  - rewrite <- Hs, Ht. now exists (e :: t2).
  - destruct Hfail as (n & c & r & _ & _ & Hn & Hf).
    rewrite Ht in Hf.
    assert (Hpre : t1 `prefix_of` take n (scenario sin 2205)).
    { apply app_eq_inv in Hf as [(k & -> & Hk)|(k & Hk & Hrest)].
      - destruct k as [|x k]; cbn [app] in Hk.
        + rewrite app_nil_r. reflexivity.
        + injection Hk as <- Hk.
          destruct k as [|y k]; cbn [app] in Hk.
          * injection Hk as <- _. now destruct He.
          * injection Hk as _ Hk. now destruct k.
      - now exists k. }
    etrans; [exact Hpre|apply prefix_take].
Qed.

Lemma writes_not_steps (sin : spec_float -> spec_float) (n : Z) :
  Forall (fun c => forall k, ~ is_step k c)
    (((fun i => roc_sender_write (batch_frame sin i)) <$> seqZ 0 n)
     ++ [roc_sender_close; roc_context_close]).
Proof.
  apply Forall_app. split.
  - apply Forall_fmap, Forall_forall. intros i _ k. now destruct k.
  - repeat constructor; intros k; now destruct k.
Qed.

Lemma setup_steps_once (k : setup_step) :
  length (filter (is_step k) (calls setup_events)) = 1%nat.
Proof. now destruct k. Qed.

Lemma setup_has_no_write :
  Forall (fun c => ~ is_sender_write c) (calls setup_events).
Proof. repeat constructor; intros []. Qed.

(** C3. In the call sequence of any run, opening the sender and connecting
    each of the two endpoints happen at most once; and wherever
    [roc_sender_write] is called, each of the three has happened exactly once
    before that call and none happens after it. *)
Theorem setup_once_before_writes (sin : spec_float -> spec_float)
    (env : environment) :
  (forall k, (length (filter (is_step k) (calls (trace sin env))) <= 1)%nat)
  /\ (forall t1 t2 frame r,
        trace sin env = t1 ++ EvCall (roc_sender_write frame) r :: t2 ->
        (forall k, length (filter (is_step k) (calls t1)) = 1%nat)
        /\ Forall (fun c => forall k, ~ is_step k c) (calls t2)).
Proof.
  pose proof (trace_calls_prefix sin env) as [rest Hrest].
  rewrite calls_scenario in Hrest.
  pose proof (writes_not_steps sin 2205) as Hlate.
  split.
  - intros k.
    assert (Hlen : length (filter (is_step k)
                     (calls setup_events
                      ++ ((fun i => roc_sender_write (batch_frame sin i))
                            <$> seqZ 0 2205)
                      ++ [roc_sender_close; roc_context_close])) = 1%nat).
    { rewrite filter_app, length_app, setup_steps_once.
      rewrite filter_none; [reflexivity|].
      eapply Forall_impl; [exact Hlate|]. intros c Hc. apply Hc. }
    rewrite Hrest, filter_app, length_app in Hlen. lia.
  - intros t1 t2 frame r Ht.
    rewrite Ht in Hrest. unfold calls in Hrest.
    rewrite omap_app in Hrest. cbn [omap list_omap call_of] in Hrest.
    fold (calls t1) in Hrest. fold (calls t2) in Hrest.
    rewrite <- app_assoc in Hrest. cbn [app] in Hrest. symmetry in Hrest.
    apply (app_cons_beyond (fun c => is_sender_write c)) in Hrest
        as (k' & Ht1 & Hk'); [|exact setup_has_no_write|exact I].
    rewrite <- Hk' in Hlate.
    apply Forall_app in Hlate as [Hk1 Hlate].
    apply Forall_cons in Hlate as [_ Hlate].
    apply Forall_app in Hlate as [Hlate _].
    split; [|exact Hlate].
    intros k. rewrite Ht1, filter_app, length_app, setup_steps_once.
    rewrite filter_none; [reflexivity|].
    eapply Forall_impl; [exact Hk1|]. intros c Hc. apply Hc.
Qed.

Lemma setup_once_before_writes_witness :
  length (filter (is_step OpenSender) (calls setup_events)) = 1%nat
  /\ length (filter (is_step ConnectSource) (calls setup_events)) = 1%nat
  /\ length (filter (is_step ConnectRepair) (calls setup_events)) = 1%nat.
Proof.
  destruct (main_all_succeed flat_sin all_succeed all_succeed_ok) as [Ht _].
  destruct (setup_once_before_writes flat_sin all_succeed) as [_ Hsplit].
  destruct (Hsplit setup_events
              ((write_event flat_sin <$> seqZ 1 2204) ++ teardown_events)
              (batch_frame flat_sin 0) 0) as [Honce _].
  - rewrite Ht. unfold scenario.
    rewrite (seqZ_cons 0 2205) by lia. reflexivity.
  - repeat split; apply Honce.
Defined.

Lemma scenario_event_of_call (sin : spec_float -> spec_float) (n : Z)
    (e : event) :
  e ∈ scenario sin n ->
  match call_of e with
  | Some (roc_sender_close) => e = EvCall roc_sender_close 0
  | Some (roc_endpoint_deallocate endp) =>
      e = EvCall (roc_endpoint_deallocate endp) 0
  | _ => True
  end.
Proof.
  unfold scenario. rewrite !elem_of_app. intros [He|[He|He]].
  - unfold setup_events, endpoint_calls in He. cbn [app] in He.
    repeat (apply elem_of_cons in He as [->|He]; [now cbn|]).
    now apply elem_of_nil in He.
  - apply list_elem_of_fmap in He as (i & -> & _). now cbn.
  - unfold teardown_events in He.
    repeat (apply elem_of_cons in He as [->|He]; [now cbn|]).
    now apply elem_of_nil in He.
Qed.

Lemma before_context_close (sin : spec_float -> spec_float) :
  Forall (fun c => c <> roc_context_close)
    (calls setup_events
     ++ ((fun i => roc_sender_write (batch_frame sin i)) <$> seqZ 0 2205)
     ++ [roc_sender_close]).
Proof.
  rewrite !Forall_app. split; [|split].
  - repeat constructor; discriminate.
  - apply Forall_fmap, Forall_forall. intros i _. discriminate.
  - repeat constructor; discriminate.
Qed.

(** C6. The context outlives the sender session: wherever a run calls
    [roc_context_close], [roc_sender_close] has been called before and has
    returned 0, and no library call at all follows. *)
Theorem context_closed_after_sender (sin : spec_float -> spec_float)
    (env : environment) (t1 t2 : list event) (e : event) :
  trace sin env = t1 ++ e :: t2 ->
  call_of e = Some roc_context_close ->
  EvCall roc_sender_close 0 ∈ t1 /\ calls t2 = [].
Proof.
  intros Ht He.
  pose proof (trace_calls_prefix sin env) as [rest Hrest].
  rewrite calls_scenario, Ht in Hrest. unfold calls in Hrest.
  rewrite omap_app in Hrest. cbn [omap list_omap] in Hrest. rewrite He in Hrest.
  fold (calls t1) in Hrest. fold (calls t2) in Hrest.
  rewrite <- app_assoc in Hrest. cbn [app] in Hrest. symmetry in Hrest.
  change [roc_sender_close; roc_context_close]
    with ([roc_sender_close] ++ [roc_context_close]) in Hrest.
  rewrite 2!app_assoc in Hrest. rewrite <- (app_assoc (calls setup_events)) in Hrest.
  apply (app_cons_beyond (fun c => c = roc_context_close)) in Hrest
      as (k & Ht1 & Hk); [|exact (before_context_close sin)|reflexivity].
  destruct k as [|x k]; cbn [app] in Hk.
  2:{ injection Hk as _ Hk. now destruct k. }
  injection Hk as Hk. apply app_eq_nil in Hk as [Hk _].
  split; [|exact Hk].
  rewrite app_nil_r in Ht1.
  assert (Hin : roc_sender_close ∈ calls t1).
  { rewrite Ht1, !elem_of_app. right; right. apply list_elem_of_singleton. reflexivity. }
  apply list_elem_of_omap in Hin as (e' & Hin & He').
  assert (Hsc : e' ∈ scenario sin 2205).
  { eapply elem_of_prefix; [exact Hin|].
    eapply events_before_call; [exact Ht|]. rewrite He. now eexists. }
  apply scenario_event_of_call in Hsc. rewrite He' in Hsc. now subst e'.
Qed.

Lemma context_closed_after_sender_witness :
  EvCall roc_sender_close 0
    ∈ setup_events ++ (write_event flat_sin <$> seqZ 0 2205)
      ++ [EvCall roc_sender_close 0].
Proof.
  destruct (main_all_succeed flat_sin all_succeed all_succeed_ok) as [Ht _].
  refine (proj1 (context_closed_after_sender flat_sin all_succeed _ []
                   (EvCall roc_context_close 0) _ eq_refl)).
  rewrite Ht. unfold scenario, teardown_events.
  rewrite <- !app_assoc. reflexivity.
Defined.

(* ================================================================== *)
(** * The endpoint descriptors *)

Lemma lifecycle_in_setup (endp : endpoint) :
  exists A B : list call,
    calls setup_events = A ++ endpoint_lifecycle endp ++ B
    /\ Forall (fun c => ~ mentions endp c) A
    /\ Forall (fun c => ~ mentions endp c) B
    /\ Forall (fun c => ~ is_sender_write c) (A ++ endpoint_lifecycle endp).
Proof.
  destruct endp.
  - exists (take 3 (calls setup_events)), (drop 9 (calls setup_events)).
    split; [reflexivity|]. repeat split; repeat constructor; intros [].
  - exists (take 9 (calls setup_events)), [].
    split; [reflexivity|]. repeat split; repeat constructor; intros [].
Qed.

Lemma writes_mention_no_endpoint (sin : spec_float -> spec_float)
    (endp : endpoint) (n : Z) :
  Forall (fun c => ~ mentions endp c)
    (((fun i => roc_sender_write (batch_frame sin i)) <$> seqZ 0 n)
     ++ [roc_sender_close; roc_context_close]).
Proof.
  apply Forall_app. split.
  - apply Forall_fmap, Forall_forall. intros i _ [].
  - repeat constructor; intros [].
Qed.

(** The calls of a run about one endpoint are consecutive, follow the
    endpoint's life in order, and come before any write. *)
Lemma endpoint_calls_consecutive (sin : spec_float -> spec_float)
    (env : environment) (endp : endpoint) :
  exists c1 seg c2 : list call,
    calls (trace sin env) = c1 ++ seg ++ c2
    /\ seg `prefix_of` endpoint_lifecycle endp
    /\ Forall (fun c => ~ mentions endp c) c1
    /\ Forall (fun c => ~ mentions endp c) c2
    /\ Forall (fun c => ~ is_sender_write c) (c1 ++ seg).
Proof.
  pose proof (trace_calls_prefix sin env) as Hpre.
  rewrite calls_scenario in Hpre.
  destruct (lifecycle_in_setup endp) as (A & B & HAB & HA & HB & Hnw).
  rewrite HAB, <- !app_assoc in Hpre.
  pose proof (writes_mention_no_endpoint sin endp 2205) as HW.
  apply prefix_app_cases in Hpre as [Hpre|(k & Hk & Hpre)].
  - exists (calls (trace sin env)), [], [].
    rewrite !app_nil_r. split; [reflexivity|]. split; [apply prefix_nil|].
    split; [eapply Forall_prefix; eassumption|]. split; [constructor|].
    eapply Forall_prefix; [exact Hpre|]. now apply Forall_app in Hnw as [Hnw _].
  - apply prefix_app_cases in Hpre as [Hpre|(k' & -> & Hpre)].
    + exists A, k, []. rewrite app_nil_r. split; [exact Hk|].
      split; [exact Hpre|]. split; [exact HA|]. split; [constructor|].
      eapply Forall_prefix; [|exact Hnw]. now apply prefix_app.
    + exists A, (endpoint_lifecycle endp), k'. split; [exact Hk|].
      split; [reflexivity|]. split; [exact HA|]. split; [|exact Hnw].
      eapply Forall_prefix; [exact Hpre|]. apply Forall_app. now split.
Qed.

Lemma connect_in_scenario (sin : spec_float -> spec_float) (endp : endpoint) :
  exists (A B : list event) (iface : roc_interface),
    scenario sin 2205
    = A ++ EvCall (roc_sender_connect iface endp) 0
        :: EvCall (roc_endpoint_deallocate endp) 0 :: B
    /\ Forall (fun e => ~ connects endp e) A
    /\ Forall (fun e => ~ connects endp e)
         (EvCall (roc_endpoint_deallocate endp) 0 :: B).
Proof.
  assert (HW : Forall (fun e => ~ connects endp e)
                 ((write_event sin <$> seqZ 0 2205) ++ teardown_events)).
  { apply Forall_app. split.
    - apply Forall_fmap, Forall_forall. intros i _ [].
    - repeat constructor; intros []. }
  unfold scenario. destruct endp.
  - exists (take 7 setup_events),
      (drop 9 setup_events ++ (write_event sin <$> seqZ 0 2205) ++ teardown_events),
      ROC_INTERFACE_AUDIO_SOURCE.
    split; [reflexivity|]. split; [repeat constructor; intros []|].
    constructor; [intros []|]. apply Forall_app. split; [|exact HW].
    repeat constructor; intros [].
  - exists (take 13 setup_events),
      ((write_event sin <$> seqZ 0 2205) ++ teardown_events),
      ROC_INTERFACE_AUDIO_REPAIR.
    split; [reflexivity|]. split; [repeat constructor; intros []|].
    constructor; [intros []|exact HW].
Qed.

(** In any run, a successful connect is followed at once by the release of
    the endpoint. *)
Lemma deallocate_follows_connect (sin : spec_float -> spec_float)
    (env : environment) (endp : endpoint) (iface : roc_interface)
    (t1 t2 : list event) :
  trace sin env = t1 ++ EvCall (roc_sender_connect iface endp) 0 :: t2 ->
  exists r t2', t2 = EvCall (roc_endpoint_deallocate endp) r :: t2'.
Proof.
  intros Ht.
  destruct (connect_in_scenario sin endp) as (A & B & iface0 & Hsc & HA & HB).
  assert (Hself : connects endp (EvCall (roc_sender_connect iface endp) 0)).
  { now destruct endp. }
  (* [u] is what follows the connect, with the result of a failed call put
     back to 0: together they make an initial segment of the scenario. *)
  assert (Hu : exists u rest,
             t1 ++ EvCall (roc_sender_connect iface endp) 0 :: u ++ rest
             = scenario sin 2205
             /\ ((t2 = u /\ rest = [])
                 \/ exists k c r txt, u = k ++ [EvCall c 0]
                                      /\ t2 = k ++ [EvCall c r; EvStderr txt])).
  { destruct (main_cases sin env) as [(Hs & _)|[_ Hfail]].
    - exists t2, []. rewrite app_nil_r, <- Hs, Ht. split; [reflexivity|now left].
    - destruct Hfail as (n & c & r & Hr & _ & Hn & Hf).
      rewrite Ht in Hf.
      apply app_eq_inv in Hf as [(k & Hk1 & Hk2)|(k & Hk1 & Hk2)].
      + exfalso. destruct k as [|x k]; cbn [app] in Hk2.
        * injection Hk2 as Hc Hr0 _. congruence.
        * injection Hk2 as _ Hk2. destruct k as [|y k]; cbn [app] in Hk2.
          -- discriminate.
          -- injection Hk2 as _ Hk2. now destruct k.
      + destruct k as [|x k]; cbn [app] in Hk2.
        * injection Hk2 as Hc Hr0 _. congruence.
        * injection Hk2 as <- Hk2.
          exists (k ++ [EvCall c 0]), (drop (S n) (scenario sin 2205)).
          split.
          -- transitivity (take n (scenario sin 2205)
                           ++ EvCall c 0 :: drop (S n) (scenario sin 2205));
               [|now apply take_drop_middle].
             rewrite Hk1, <- !app_assoc. reflexivity.
          -- right. exists k, c, r. eexists. split; [reflexivity|exact Hk2]. }
  destruct Hu as (u & rest & Heq & Hu).
  rewrite Hsc in Heq.
  apply (app_cons_beyond (fun e => connects endp e)) in Heq
      as (k & _ & Hk); [|exact HA|exact Hself].
  destruct k as [|x k]; cbn [app] in Hk.
  2:{ exfalso. injection Hk as _ Hk. rewrite <- Hk in HB.
      apply Forall_app in HB as [_ HB]. apply Forall_cons in HB as [HB _].
      now apply HB. }
  injection Hk as _ Hk.
  destruct Hu as [[<- ->]|(k & c & r & txt & -> & ->)].
  - destruct t2 as [|x t2]; cbn [app] in Hk; [discriminate|].
    injection Hk as -> _. eauto.
  - destruct k as [|x k]; cbn [app] in Hk; injection Hk as -> _; eauto.
Qed.

(** C5. For each of the two endpoint descriptors, the calls of a run that
    take it as an argument are consecutive and follow, in order, its life:
    allocate, set protocol, set host, set port, connect, deallocate.  They come
    before any write, nothing after them uses the descriptor again, and
    wherever the connect returns 0, the very next event is the call that
    deallocates the descriptor. *)
Theorem endpoint_released_right_after_connect
    (sin : spec_float -> spec_float) (env : environment) (endp : endpoint) :
  (exists c1 seg c2 : list call,
      calls (trace sin env) = c1 ++ seg ++ c2
      /\ seg `prefix_of` endpoint_lifecycle endp
      /\ Forall (fun c => ~ mentions endp c) c1
      /\ Forall (fun c => ~ mentions endp c) c2
      /\ Forall (fun c => ~ is_sender_write c) (c1 ++ seg))
  /\ (forall (iface : roc_interface) (t1 t2 : list event),
        trace sin env = t1 ++ EvCall (roc_sender_connect iface endp) 0 :: t2 ->
        exists r t2', t2 = EvCall (roc_endpoint_deallocate endp) r :: t2').
Proof.
  split.
  - apply endpoint_calls_consecutive.
  - intros iface t1 t2. apply deallocate_follows_connect.
Qed.

Lemma endpoint_released_right_after_connect_witness :
  exists r t2',
    drop 8 setup_events ++ (write_event flat_sin <$> seqZ 0 2205)
      ++ teardown_events
    = EvCall (roc_endpoint_deallocate recv_source_endp) r :: t2'.
Proof.
  destruct (main_all_succeed flat_sin all_succeed all_succeed_ok) as [Ht _].
  destruct (endpoint_released_right_after_connect flat_sin all_succeed
              recv_source_endp) as [_ Hnext].
  apply (Hnext ROC_INTERFACE_AUDIO_SOURCE (take 7 setup_events)).
  rewrite Ht. reflexivity.
Defined.

(* ================================================================== *)
(** * The stream encoder *)

Module StreamEncoderFacts.
Import StreamEncoder.

Lemma packetize_seq (fuel size : nat) :
  forall (seq : Z) (stream : list spec_float) pkts seq' rest,
    packetize fuel size seq stream = (pkts, (seq', rest)) ->
    seq_num <$> pkts = seqZ seq (Z.of_nat (length pkts))
    /\ seq' = seq + Z.of_nat (length pkts).
Proof.
  induction fuel as [|fuel IH]; intros seq stream pkts seq' rest Hp;
    cbn [packetize] in Hp.
  - injection Hp as <- <- <-. split; [reflexivity|cbn; lia].
  - destruct (decide (size <= length stream)%nat) as [Hle|Hgt].
    + destruct (packetize fuel size (seq + 1) (drop size stream))
        as [pkts0 [seq0 rest0]] eqn:Hrec.
      injection Hp as <- <- <-.
      destruct (IH _ _ _ _ _ Hrec) as [Hseqs ->].
      split.
      * cbn [length]. rewrite seqZ_cons by lia. rewrite fmap_cons.
        cbn [seq_num]. f_equal. rewrite Hseqs. f_equal; lia.
      * cbn [length]. lia.
    + injection Hp as <- <- <-. split; [reflexivity|cbn; lia].
Qed.

(** With one unit of fuel per pending sample, every whole packet is cut. *)
Lemma packetize_complete (size : nat) (fuel : nat) :
  forall (seq : Z) (stream : list spec_float) pkts seq' rest,
    (0 < size)%nat -> (length stream <= fuel)%nat ->
    packetize fuel size seq stream = (pkts, (seq', rest)) ->
    (length rest < size)%nat.
Proof.
  induction fuel as [|fuel IH]; intros seq stream pkts seq' rest Hsize Hfuel Hp;
    cbn [packetize] in Hp.
  - injection Hp as _ _ <-. lia.
  - destruct (decide (size <= length stream)%nat) as [Hle|Hgt].
    + destruct (packetize fuel size (seq + 1) (drop size stream))
        as [pkts0 [seq0 rest0]] eqn:Hrec.
      injection Hp as _ _ <-.
      eapply IH; [exact Hsize| |exact Hrec].
      rewrite length_drop. lia.
    + injection Hp as _ _ <-. lia.
Qed.

Lemma write_seq (s s' : session) (frame : list spec_float)
    (pkts : list source_packet) :
  write s frame = inr (pkts, s') ->
  seq_num <$> pkts = seqZ (next_seq s) (Z.of_nat (length pkts))
  /\ next_seq s' = next_seq s + Z.of_nat (length pkts).
Proof.
  unfold write. destruct (negb (connected s)); [discriminate|].
  destruct (decide _); [discriminate|].
  destruct (packetize _ _ _ _) as [pkts0 [seq0 rest0]] eqn:Hp.
  intros [= <- <-]. cbn [next_seq].
  eapply packetize_seq; eassumption.
Qed.

Lemma write_all_seq (frames : list (list spec_float)) :
  forall s : session,
    seq_num <$> write_all s frames
    = seqZ (next_seq s) (Z.of_nat (length (write_all s frames))).
Proof.
  induction frames as [|frame frames IH]; intros s; cbn [write_all].
  - reflexivity.
  - destruct (write s frame) as [err|[pkts s']] eqn:Hw.
    + apply IH.
    + destruct (write_seq _ _ _ _ Hw) as [Hseqs Hnext].
      rewrite fmap_app, Hseqs, IH, Hnext, length_app, Nat2Z.inj_add.
      rewrite seqZ_app by lia. reflexivity.
Qed.
End StreamEncoderFacts.

(** C7. Over any sequence of writes to one session, failed ones included,
    the sequence numbers of the packets the stream encoder emits are
    consecutive from the session's first number on: strictly increasing,
    hence without duplicates, and without gaps. *)
Theorem sequence_numbers_consecutive (s : StreamEncoder.session)
    (frames : list (list spec_float)) :
  let pkts := StreamEncoder.write_all s frames in
  (forall (i : nat) (p : StreamEncoder.source_packet),
      pkts !! i = Some p ->
      StreamEncoder.seq_num p = StreamEncoder.next_seq s + Z.of_nat i)
  /\ (forall (i j : nat) (p q : StreamEncoder.source_packet),
        pkts !! i = Some p -> pkts !! j = Some q -> (i < j)%nat ->
        StreamEncoder.seq_num p < StreamEncoder.seq_num q)
  /\ (forall (i : nat) (p q : StreamEncoder.source_packet),
        pkts !! i = Some p -> pkts !! S i = Some q ->
        StreamEncoder.seq_num q = StreamEncoder.seq_num p + 1).
Proof.
  intros pkts.
  assert (Hnth : forall (i : nat) (p : StreamEncoder.source_packet),
             pkts !! i = Some p ->
             StreamEncoder.seq_num p = StreamEncoder.next_seq s + Z.of_nat i).
  { intros i p Hi.
    pose proof (StreamEncoderFacts.write_all_seq frames s) as Hseq.
    fold pkts in Hseq.
    assert (Hl : (StreamEncoder.seq_num <$> pkts) !! i
                 = Some (StreamEncoder.seq_num p))
      by now rewrite list_lookup_fmap, Hi.
    rewrite Hseq in Hl. now apply lookup_seqZ in Hl as [-> _]. }
  split; [exact Hnth|]. split.
  - intros i j p q Hi Hj Hij.
    rewrite (Hnth i p Hi), (Hnth j q Hj). lia.
  - intros i p q Hi Hj. rewrite (Hnth i p Hi), (Hnth (S i) q Hj). lia.
Qed.

Lemma sequence_numbers_consecutive_witness :
  exists p q : StreamEncoder.source_packet,
    StreamEncoder.write_all (StreamEncoder.Session 2 3 true 7 [])
      [ [S754_zero false; S754_zero false; S754_zero false; S754_zero false];
        [S754_zero false; S754_zero false; S754_zero false];
        [S754_zero false; S754_zero false] ]
    = [p; q]
    /\ StreamEncoder.seq_num q = StreamEncoder.seq_num p + 1.
Proof.
  do 2 eexists. split; [vm_compute; reflexivity|].
  destruct (sequence_numbers_consecutive (StreamEncoder.Session 2 3 true 7 [])
              [ [S754_zero false; S754_zero false; S754_zero false;
                 S754_zero false];
                [S754_zero false; S754_zero false; S754_zero false];
                [S754_zero false; S754_zero false] ]) as (_ & _ & Hnext).
  apply (Hnext 0%nat); reflexivity.
Defined.

(* ================================================================== *)
(** * The time axis of the sine wave *)

(** ** Doubles that hold integers *)

Lemma digits2_pos_shiftl (m : positive) (n : N) :
  Z.pos (digits2_pos (Pos.shiftl m n)) = Z.pos (digits2_pos m) + Z.of_N n.
Proof.
  destruct n as [|n]; [unfold Pos.shiftl; cbn; lia|].
  change (Z.pos (digits2_pos (Pos.iter xO m n)) = Z.pos (digits2_pos m) + Z.pos n).
  induction n using Pos.peano_ind.
  - cbn. lia.
  - rewrite Pos.iter_succ. cbn [digits2_pos]. lia.
Qed.

Lemma iter_pos_iter {A : Type} (f : A -> A) (n : positive) :
  forall x : A, SpecFloat.iter_pos f n x = Pos.iter f x n.
Proof.
  induction n as [n IH|n IH|]; intros x; simpl.
  - rewrite !IH. now rewrite <- !Pos.iter_swap.
  - now rewrite !IH.
  - reflexivity.
Qed.

Lemma shr_1_shifted (m : positive) (n : positive) :
  Pos.iter shr_1 (Build_shr_record (Z.pos (Pos.iter xO m n)) false false) n
  = Build_shr_record (Z.pos m) false false.
Proof.
  induction n using Pos.peano_ind.
  - reflexivity.
  - rewrite Pos.iter_succ_r. rewrite Pos.iter_succ. simpl shr_1. exact IHn.
Qed.

Lemma shr_exact (m : positive) (e n : Z) :
  0 <= n ->
  shr (Build_shr_record (Z.pos (Pos.shiftl m (Z.to_N n))) false false) e n
  = (Build_shr_record (Z.pos m) false false, e + n).
Proof.
  intros Hn. destruct n as [|n|n]; try lia.
  - unfold shr, Pos.shiftl. cbn [Z.to_N]. f_equal. lia.
  - unfold shr, Pos.shiftl. cbn [Z.to_N].
    rewrite iter_pos_iter, shr_1_shifted. reflexivity.
Qed.

Lemma shl_align_le (mx : positive) (ex ex' : Z) :
  ex' <= ex ->
  shl_align mx ex ex' = (Pos.shiftl mx (Z.to_N (ex - ex')), ex').
Proof.
  intros H. unfold shl_align.
  destruct (ex' - ex) as [|d|d] eqn:Hd; try lia.
  - replace (ex - ex') with 0 by lia. unfold Pos.shiftl. cbn [Z.to_N].
    f_equal. lia.
  - replace (ex - ex') with (Z.pos d) by lia. reflexivity.
Qed.

Lemma shl_align_ge (mx : positive) (ex ex' : Z) :
  ex <= ex' -> shl_align mx ex ex' = (mx, ex).
Proof.
  intros H. unfold shl_align.
  destruct (ex' - ex) as [|d|d] eqn:Hd; try lia; reflexivity.
Qed.

Lemma pos_shiftl_val (m : positive) (n : N) :
  Z.pos (Pos.shiftl m n) = Z.pos m * 2 ^ Z.of_N n.
Proof.
  destruct n as [|n]; [unfold Pos.shiftl; cbn; lia|].
  change (Z.pos (Pos.iter xO m n) = Z.pos m * 2 ^ Z.pos n).
  induction n using Pos.peano_ind.
  - cbn. lia.
  - rewrite Pos.iter_succ, Pos2Z.inj_xO, IHn.
    rewrite Pos2Z.inj_succ, Z.pow_succ_r by lia. lia.
Qed.

Lemma digits2_bounds (p : positive) :
  2 ^ (Z.pos (digits2_pos p) - 1) <= Z.pos p < 2 ^ Z.pos (digits2_pos p).
Proof.
  induction p as [p IH|p IH|]; simpl digits2_pos.
  - rewrite Pos2Z.inj_succ, Pos2Z.inj_xI.
    replace (Z.succ (Z.pos (digits2_pos p)) - 1) with (Z.succ (Z.pos (digits2_pos p) - 1)) by lia.
    rewrite !Z.pow_succ_r by lia.
    generalize dependent (2 ^ (Z.pos (digits2_pos p) - 1)).
    generalize (2 ^ Z.pos (digits2_pos p)). lia.
  - rewrite Pos2Z.inj_succ. change (Z.pos p~0) with (2 * Z.pos p).
    replace (Z.succ (Z.pos (digits2_pos p)) - 1) with (Z.succ (Z.pos (digits2_pos p) - 1)) by lia.
    rewrite !Z.pow_succ_r by lia.
    generalize dependent (2 ^ (Z.pos (digits2_pos p) - 1)).
    generalize (2 ^ Z.pos (digits2_pos p)). lia.
  - cbn. lia.
Qed.

Lemma digits2_le (p : positive) (n : Z) :
  0 <= n -> Z.pos p < 2 ^ n -> Z.pos (digits2_pos p) <= n.
Proof.
  intros Hn Hp. destruct (digits2_bounds p) as [Hlo _].
  destruct (Z_le_gt_dec (Z.pos (digits2_pos p)) n) as [|Hgt]; [assumption|].
  assert (2 ^ n <= 2 ^ (Z.pos (digits2_pos p) - 1)) by (apply Z.pow_le_mono_r; lia).
  lia.
Qed.

(** Rounding a mantissa that has exactly 53 digits once its [q] trailing
    zeros are shifted out is exact. *)
Lemma binary_round_aux_exact (m : positive) (e q : Z) :
  Z.pos (digits2_pos m) = 53 -> 0 <= q -> -1074 <= e + q <= 971 ->
  binary_round_aux 53 1024 false (Z.pos (Pos.shiftl m (Z.to_N q))) e loc_Exact
  = S754_finite false m (e + q).
Proof.
  intros Hd Hq He. unfold binary_round_aux, shr_fexp, fexp, emin.
  cbn [Zdigits2 shr_record_of_loc].
  rewrite digits2_pos_shiftl, Hd, Z2N.id by lia.
  replace (Z.max (53 + q + e - 53) (3 - 1024 - 53) - e) with q by lia.
  rewrite shr_exact by lia.
  cbn [shr_m loc_of_shr_record round_nearest_even Zdigits2].
  rewrite Hd.
  replace (Z.max (53 + (e + q) - 53) (3 - 1024 - 53) - (e + q)) with 0 by lia.
  cbn [shr shr_m].
  destruct (Z.leb_spec (e + q) (1024 - 53)); [reflexivity|lia].
Qed.

(** A positive integer below 2^53 is a double: its digits, shifted up to
    fill the mantissa. *)
Lemma of_Z_pos (p : positive) :
  Z.pos p < 2 ^ 53 ->
  F64.of_Z (Z.pos p)
  = S754_finite false
      (Pos.shiftl p (Z.to_N (53 - Z.pos (digits2_pos p))))
      (Z.pos (digits2_pos p) - 53).
Proof.
  intros Hp. pose proof (digits2_le p 53 ltac:(lia) Hp) as Hd.
  unfold F64.of_Z, binary_normalize, binary_round, F64.prec, F64.emax, fexp, emin.
  replace (Z.max (Z.pos (digits2_pos p) + 0 - 53) (3 - 1024 - 53))
    with (Z.pos (digits2_pos p) - 53) by lia.
  rewrite shl_align_le by lia.
  replace (0 - (Z.pos (digits2_pos p) - 53)) with (53 - Z.pos (digits2_pos p)) by lia.
  pose proof (binary_round_aux_exact
                (Pos.shiftl p (Z.to_N (53 - Z.pos (digits2_pos p))))
                (Z.pos (digits2_pos p) - 53) 0) as H.
  change (Pos.shiftl (Pos.shiftl p (Z.to_N (53 - Z.pos (digits2_pos p))))
            (Z.to_N 0))
    with (Pos.shiftl p (Z.to_N (53 - Z.pos (digits2_pos p)))) in H.
  rewrite H; [f_equal; lia| |lia|lia].
  rewrite digits2_pos_shiftl, Z2N.id by lia. lia.
Qed.

(** Adding 1.0 to an integer-valued double below 2^53 is exact. *)
Lemma next_time_exact (k : Z) :
  0 <= k -> k + 1 < 2 ^ 53 -> next_time (F64.of_Z k) = F64.of_Z (k + 1).
Proof.
  intros Hk Hk1. destruct k as [|p|p]; [reflexivity| |lia].
  replace (Z.pos p + 1) with (Z.pos (p + 1)) by lia.
  assert (Hp1 : Z.pos (p + 1) < 2 ^ 53) by lia.
  pose proof (digits2_le p 53 ltac:(lia) ltac:(lia)) as Hd.
  pose proof (digits2_le (p + 1) 53 ltac:(lia) Hp1) as Hd1.
  assert (Hd1' : 2 <= Z.pos (digits2_pos (p + 1))).
  { destruct (digits2_bounds (p + 1)) as [_ Hhi].
    destruct (Z_le_gt_dec 2 (Z.pos (digits2_pos (p + 1)))) as [|Hlt]; [assumption|].
    replace (Z.pos (digits2_pos (p + 1))) with 1 in Hhi by lia.
    change (2 ^ 1) with 2 in Hhi. lia. }
  unfold next_time. rewrite (of_Z_pos p) by lia. rewrite (of_Z_pos (p + 1)) by lia.
  change (F64.of_Z 1) with (S754_finite false 4503599627370496 (-52)).
  set (d := Z.pos (digits2_pos p)) in *.
  set (d1 := Z.pos (digits2_pos (p + 1))) in *.
  unfold F64.add, SFadd, cond_Zopp.
  replace (Z.min (d - 53) (-52)) with (-52) by lia.
  rewrite !shl_align_le by lia. cbn [fst].
  replace (-52 - -52) with 0 by lia.
  change (Pos.shiftl 4503599627370496 (Z.to_N 0)) with 4503599627370496%positive.
  unfold binary_normalize.
  change (Z.pos ?a + Z.pos ?b) with (Z.pos (a + b)).
  unfold binary_round.
  set (M := (Pos.shiftl (Pos.shiftl p (Z.to_N (53 - d))) (Z.to_N (d - 53 - -52))
             + 4503599627370496)%positive).
  set (m1 := Pos.shiftl (p + 1) (Z.to_N (53 - d1))).
  assert (HM : M = Pos.shiftl m1 (Z.to_N (d1 - 1))).
  { apply Pos2Z.inj. subst M m1.
    rewrite Pos2Z.inj_add, !pos_shiftl_val, !Z2N.id by lia.
    rewrite <- !Z.mul_assoc, <- !Z.pow_add_r by lia.
    replace (53 - d + (d - 53 - -52)) with 52 by lia.
    replace (53 - d1 + (d1 - 1)) with 52 by lia.
    rewrite Pos2Z.inj_add. change (2 ^ 52) with 4503599627370496. lia. }
  assert (Hm1 : Z.pos (digits2_pos m1) = 53).
  { subst m1. rewrite digits2_pos_shiftl, Z2N.id by lia. fold d1. lia. }
  rewrite HM. clearbody m1. clear HM M.
  rewrite digits2_pos_shiftl, Hm1, Z2N.id by lia.
  unfold fexp, emin.
  unfold F64.prec, F64.emax.
  replace (Z.max (53 + (d1 - 1) + -52 - 53) (3 - 1024 - 53)) with (d1 - 53) by lia.
  rewrite shl_align_ge by lia.
  rewrite binary_round_aux_exact by lia.
  f_equal. lia.
Qed.

(** ** The time index *)

Lemma gensine_time_exact (batch_num num_samples : Z) (j : nat) :
  0 <= gensine_start batch_num num_samples ->
  gensine_start batch_num num_samples + Z.of_nat j < 2 ^ 53 ->
  gensine_time batch_num num_samples j
  = F64.of_Z (gensine_start batch_num num_samples + Z.of_nat j).
Proof.
  intros Hlo. unfold gensine_time.
  induction j as [|j IH]; intros Hhi.
  - cbn [Nat.iter nat_rect]. f_equal. lia.
  - rewrite Nat.iter_succ, IH by lia.
    rewrite next_time_exact by lia. f_equal. lia.
Qed.

Lemma gensine_start_even (batch_num num_samples : Z) :
  0 <= batch_num -> 0 <= num_samples ->
  batch_num * num_samples < SizeT.modulus ->
  Z.even num_samples = true ->
  gensine_start batch_num num_samples = batch_num * (num_samples / 2).
Proof.
  intros Hb Hn Hmax Heven.
  unfold gensine_start, SizeT.mul, SizeT.div.
  rewrite wrap_small by (split; [apply Z.mul_nonneg_nonneg; lia|lia]).
  apply Z.even_spec in Heven as [h ->].
  replace (2 * h / 2) with h by div_lia.
  replace (batch_num * (2 * h)) with (batch_num * h * 2) by lia.
  now rewrite Z.div_mul by lia.
Qed.

(** C10, as the code has it.  For an even [num_samples], as long as the
    product [batch_num * num_samples] does not wrap around in [size_t] and
    the time index stays below 2^53, [gensine] samples one fixed sinusoid at
    consecutive integer time indices: the left sample of pair [j] of batch
    [batch_num] is

      (float)sin(2 * 3.14159265359 * 440 / 44100 * t) * 0.1f

    at [t = (double)(batch_num * (num_samples / 2) + j)], the cast applying
    to the result of [sin] and the product being taken in [float]; and the
    time at which a batch starts is one past the time of the last pair of
    the batch before it. *)
Theorem gensine_samples_one_sinusoid (sin : spec_float -> spec_float)
    (b : buffer) (batch_num num_samples : Z) (j : nat) :
  SizeT.valid num_samples ->
  Z.of_nat (length (cells b)) = num_samples ->
  Z.even num_samples = true ->
  0 <= batch_num ->
  batch_num * num_samples < SizeT.modulus ->
  Z.of_nat j < num_samples / 2 ->
  batch_num * (num_samples / 2) + Z.of_nat j < 2 ^ 53 ->
  exists b',
    gensine sin b batch_num num_samples = Some b'
    /\ cells b' !! (2 * j)%nat
       = Some (Some (F32.mul
                       (F32.of_double
                          (sin (phase (F64.of_Z (batch_num * (num_samples / 2)
                                                 + Z.of_nat j)))))
                       (F32.of_decimal 1 1)))
    /\ (0 < batch_num ->
        gensine_time batch_num num_samples 0
        = next_time (gensine_time (batch_num - 1) num_samples
                       (Z.to_nat (num_samples / 2 - 1)))).
Proof.
  intros Hvalid Hlen Heven Hb Hwrap Hj Hbig.
  destruct (gensine_spec sin b batch_num num_samples Hvalid Hlen)
    as (b' & Hrun & _ & _ & Hcells).
  destruct Hvalid as [Hn0 Hn1].
  assert (Hstart : gensine_start batch_num num_samples
                   = batch_num * (num_samples / 2)).
  { now apply gensine_start_even. }
  exists b'. split; [exact Hrun|]. split.
  - destruct (Hcells j Hj) as [He _]. rewrite He. unfold sample_at.
    rewrite gensine_time_exact by (rewrite Hstart; nia).
    now rewrite Hstart.
  - intros Hpos.
    assert (Hprev : gensine_start (batch_num - 1) num_samples
                    = (batch_num - 1) * (num_samples / 2)).
    { apply gensine_start_even; try assumption; nia. }
    rewrite !gensine_time_exact by (rewrite ?Hstart, ?Hprev; nia).
    rewrite next_time_exact by (rewrite Hprev; nia).
    rewrite Hstart, Hprev. f_equal. nia.
Qed.

Lemma gensine_samples_one_sinusoid_witness :
  exists b',
    gensine flat_sin (fresh_buffer 100) 2204 100 = Some b'
    /\ gensine_time 2204 100 0
       = next_time (gensine_time 2203 100 49).
Proof.
  destruct (gensine_samples_one_sinusoid flat_sin (fresh_buffer 100) 2204 100 49)
    as (b' & Hrun & _ & Hnext);
    try (unfold SizeT.valid, SizeT.modulus, SizeT.bits; cbn; lia);
    try reflexivity.
  exists b'. split; [exact Hrun|]. apply Hnext. lia.
Defined.

(** C10 as stated fails for an odd [num_samples].  With three samples per
    batch, batch 3 starts at time 4, not at [3 * (3 / 2) + 0 = 3]; and batch
    1 is the single pair of time 1, yet batch 2 starts at time 3. *)
Lemma gensine_time_odd_batch :
  gensine_time 3 3 0 = F64.of_Z 4
  /\ F64.of_Z 4 <> F64.of_Z (3 * (3 / 2) + 0)
  /\ gensine_time 2 3 0 <> next_time (gensine_time 1 3 0).
Proof. repeat split; vm_compute; discriminate. Qed.

(** Further limits of the formula of C10. *)

(** When [batch_num * num_samples] wraps around, the time starts over. *)
Example gensine_time_wraps :
  gensine_time (2 ^ 63) 2 0 = F64.of_Z 0
  /\ F64.of_Z 0 <> F64.of_Z (2 ^ 63 * (2 / 2) + 0).
Proof. split; vm_compute; [reflexivity|discriminate]. Qed.

(** From 2^53 on, [t += 1] no longer changes [t]. *)
Example gensine_time_saturates :
  gensine_start 1801439850948198 10 = 2 ^ 53 - 2
  /\ gensine_time 1801439850948198 10 4 = F64.of_Z (2 ^ 53)
  /\ F64.of_Z (2 ^ 53) <> F64.of_Z (2 ^ 53 - 2 + 4).
Proof. repeat split; vm_compute; discriminate. Qed.

(** The place of the cast matters: for the double 9/256, casting and then
    multiplying by [0.1f] in [float], as the code does, differs from
    multiplying by [0.1] in [double] and then casting. *)
Example cast_before_product :
  let x := F64.div (F64.of_Z 9) (F64.of_Z 256) in
  F32.mul (F32.of_double x) (F32.of_decimal 1 1)
  <> F32.of_double (F64.mul x (F64.of_decimal 1 1)).
Proof. vm_compute. discriminate. Qed.

(* ================================================================== *)
(** * More on [gensine]: arrays of any length *)

Lemma store_beyond (b : buffer) (idx : Z) (v : spec_float) :
  Z.of_nat (length (cells b)) <= idx -> store b idx v = None.
Proof.
  intros H. unfold store. apply Z.ltb_ge in H. rewrite H.
  now rewrite andb_false_r.
Qed.

Lemma pair_indices_seqZ (k : nat) :
  forall i : Z, pair_indices i k = seqZ (2 * i) (2 * Z.of_nat k).
Proof.
  induction k as [|k IH]; intros i.
  - reflexivity.
  - rewrite pair_indices_S, IH.
    rewrite (seqZ_cons (2 * i)) by lia.
    rewrite (seqZ_cons (Z.succ (2 * i))) by lia.
    f_equal; [lia|]. f_equal; [lia|]. f_equal; lia.
Qed.

(** [k] runs of the loop body on an array with room for them: what is
    stored, where, and what is left alone. *)
Lemma gensine_loop_room (sin : spec_float -> spec_float) (k : nat) :
  forall (i : Z) (t : spec_float) (b : buffer),
    0 <= i ->
    2 * (i + Z.of_nat k) <= Z.of_nat (length (cells b)) ->
    2 * (i + Z.of_nat k) <= SizeT.modulus ->
    exists b',
      gensine_loop sin k i t b = Some b'
      /\ length (cells b') = length (cells b)
      /\ stored b' = stored b ++ pair_indices i k
      /\ (forall j : nat, (j < k)%nat ->
            cells b' !! Z.to_nat (2 * (i + Z.of_nat j))
            = Some (Some (sample_at sin (Nat.iter j next_time t)))
            /\ cells b' !! Z.to_nat (2 * (i + Z.of_nat j) + 1)
               = Some (Some (F32.opp (sample_at sin (Nat.iter j next_time t)))))
      /\ (forall n : nat,
            Z.of_nat n < 2 * i \/ 2 * (i + Z.of_nat k) <= Z.of_nat n ->
            cells b' !! n = cells b !! n).
Proof.
  induction k as [|k IH]; intros i t b Hi Hlen Hmod.
  - exists b. cbn [gensine_loop]. repeat split; try lia.
    unfold pair_indices. cbn. now rewrite app_nil_r.
  - cbn [gensine_loop].
    assert (Hm2 : SizeT.mul i 2 = i * 2).
    { unfold SizeT.mul. apply wrap_small. lia. }
    assert (Ha1 : SizeT.add (i * 2) 1 = i * 2 + 1).
    { unfold SizeT.add. apply wrap_small. lia. }
    assert (Hi1 : SizeT.add i 1 = i + 1).
    { unfold SizeT.add. apply wrap_small. lia. }
    rewrite Hm2, Ha1, Hi1.
    rewrite store_in_range by lia. cbn [mbind option_bind].
    rewrite store_in_range by (cbn [cells]; rewrite length_insert; lia).
    cbn [mbind option_bind cells stored].
    set (s := sample_at sin t).
    set (b2 := Buffer _ _).
    destruct (IH (i + 1) (next_time t) b2) as (b' & Hrun & Hl & Hst & Hpairs & Hold).
    { lia. }
    { subst b2. cbn [cells]. rewrite !length_insert. lia. }
    { lia. }
    exists b'. split; [exact Hrun|].
    split. { rewrite Hl. subst b2. cbn [cells]. now rewrite !length_insert. }
    split. { rewrite Hst. subst b2. cbn [stored].
             rewrite pair_indices_S, <- !app_assoc. reflexivity. }
    split.
    + intros j Hj. destruct j as [|j].
      * cbn [Nat.iter nat_rect]. rewrite !Hold by lia.
        subst b2. cbn [cells]. split.
        -- rewrite list_lookup_insert_ne by lia.
           replace (Z.to_nat (2 * (i + Z.of_nat 0))) with (Z.to_nat (i * 2)) by lia.
           rewrite list_lookup_insert_eq by lia. reflexivity.
        -- replace (Z.to_nat (2 * (i + Z.of_nat 0) + 1))
             with (Z.to_nat (i * 2 + 1)) by lia.
           rewrite list_lookup_insert_eq by (rewrite length_insert; lia).
           reflexivity.
      * rewrite Nat.iter_succ_r.
        destruct (Hpairs j ltac:(lia)) as [He Ho].
        replace (2 * (i + Z.of_nat (S j))) with (2 * (i + 1 + Z.of_nat j)) by lia.
        split; assumption.
    + intros n Hn. rewrite Hold by lia. subst b2. cbn [cells].
      rewrite !list_lookup_insert_ne by lia. reflexivity.
Qed.

(** On an array too short for the runs that are left, a store leaves it. *)
Lemma gensine_loop_overrun (sin : spec_float -> spec_float) (k : nat) :
  forall (i : Z) (t : spec_float) (b : buffer),
    0 <= i ->
    2 * i <= Z.of_nat (length (cells b)) ->
    Z.of_nat (length (cells b)) < 2 * (i + Z.of_nat k) ->
    2 * (i + Z.of_nat k) <= SizeT.modulus ->
    gensine_loop sin k i t b = None.
Proof.
  induction k as [|k IH]; intros i t b Hi Hlo Hhi Hmod; [lia|].
  cbn [gensine_loop].
  assert (Hm2 : SizeT.mul i 2 = i * 2).
  { unfold SizeT.mul. apply wrap_small. lia. }
  assert (Ha1 : SizeT.add (i * 2) 1 = i * 2 + 1).
  { unfold SizeT.add. apply wrap_small. lia. }
  assert (Hi1 : SizeT.add i 1 = i + 1).
  { unfold SizeT.add. apply wrap_small. lia. }
  rewrite Hm2, Ha1, Hi1.
  destruct (Z_lt_le_dec (i * 2) (Z.of_nat (length (cells b)))) as [H0|H0].
  2:{ now rewrite store_beyond by lia. }
  rewrite store_in_range by lia. cbn [mbind option_bind].
  destruct (Z_lt_le_dec (i * 2 + 1) (Z.of_nat (length (cells b)))) as [H1|H1].
  2:{ now rewrite store_beyond by (cbn [cells]; rewrite length_insert; lia). }
  rewrite store_in_range by (cbn [cells]; rewrite length_insert; lia).
  cbn [mbind option_bind cells stored].
  apply IH; cbn [cells]; rewrite ?length_insert; lia.
Qed.

Lemma half_bounds (num_samples : Z) :
  SizeT.valid num_samples ->
  0 <= num_samples / 2
  /\ 2 * (num_samples / 2) <= num_samples
  /\ 2 * (0 + Z.of_nat (Z.to_nat (num_samples / 2))) <= SizeT.modulus
  /\ Z.of_nat (Z.to_nat (num_samples / 2)) = num_samples / 2.
Proof.
  intros [Hlo Hhi].
  assert (0 <= num_samples / 2) by (apply Z.div_pos; lia).
  assert (2 * (num_samples / 2) <= num_samples) by (apply Z.mul_div_le; lia).
  repeat split; lia.
Qed.

(** Everything a successful call of [gensine] tells. *)
Lemma gensine_result (sin : spec_float -> spec_float) (b b' : buffer)
    (batch_num num_samples : Z) :
  SizeT.valid num_samples ->
  gensine sin b batch_num num_samples = Some b' ->
  2 * (num_samples / 2) <= Z.of_nat (length (cells b))
  /\ length (cells b') = length (cells b)
  /\ stored b' = stored b ++ seqZ 0 (2 * (num_samples / 2))
  /\ (forall j : nat, Z.of_nat j < num_samples / 2 ->
        cells b' !! (2 * j)%nat
        = Some (Some (sample_at sin (gensine_time batch_num num_samples j)))
        /\ cells b' !! (2 * j + 1)%nat
           = Some (Some (F32.opp
                           (sample_at sin
                              (gensine_time batch_num num_samples j)))))
  /\ (forall n : nat, 2 * (num_samples / 2) <= Z.of_nat n ->
        cells b' !! n = cells b !! n).
Proof.
  intros Hvalid Hrun.
  destruct (half_bounds num_samples Hvalid) as (Hh0 & Hh1 & Hh2 & Hh3).
  unfold gensine, SizeT.div in Hrun.
  assert (Hroom : 2 * (num_samples / 2) <= Z.of_nat (length (cells b))).
  { destruct (Z_le_gt_dec (2 * (num_samples / 2))
                (Z.of_nat (length (cells b)))) as [|Hshort]; [assumption|].
    rewrite gensine_loop_overrun in Hrun by lia. discriminate. }
  destruct (gensine_loop_room sin (Z.to_nat (num_samples / 2)) 0
              (F64.of_Z (gensine_start batch_num num_samples)) b)
    as (b'' & Hrun' & Hl & Hst & Hpairs & Hold); try lia.
  rewrite Hrun' in Hrun. injection Hrun as ->.
  split; [exact Hroom|]. split; [exact Hl|]. split; [|split].
  - rewrite Hst, pair_indices_seqZ, Hh3. reflexivity.
  - intros j Hj. destruct (Hpairs j ltac:(lia)) as [He Ho].
    replace (Z.to_nat (2 * (0 + Z.of_nat j))) with (2 * j)%nat in He by lia.
    replace (Z.to_nat (2 * (0 + Z.of_nat j) + 1)) with (2 * j + 1)%nat in Ho by lia.
    split; assumption.
  - intros n Hn. apply Hold. right. lia.
Qed.

(** X1. [gensine] returns exactly when the array has room for the
    [2 * (num_samples / 2)] samples it stores; on a shorter array one of its
    stores falls outside. *)
Theorem gensine_returns_iff_room (sin : spec_float -> spec_float) (b : buffer)
    (batch_num num_samples : Z) :
  SizeT.valid num_samples ->
  is_Some (gensine sin b batch_num num_samples)
  <-> 2 * (num_samples / 2) <= Z.of_nat (length (cells b)).
Proof.
  intros Hvalid. split.
  - intros [b' Hrun]. now apply (gensine_result sin b b' batch_num num_samples).
  - intros Hroom.
    destruct (half_bounds num_samples Hvalid) as (Hh0 & Hh1 & Hh2 & Hh3).
    destruct (gensine_loop_room sin (Z.to_nat (num_samples / 2)) 0
                (F64.of_Z (gensine_start batch_num num_samples)) b)
      as (b' & Hrun & _); try lia.
    exists b'. exact Hrun.
Qed.

Lemma gensine_returns_iff_room_witness :
  is_Some (gensine flat_sin (fresh_buffer 5) 9 5)
  /\ ~ is_Some (gensine flat_sin (fresh_buffer 5) 9 6).
Proof.
  assert (Hv : forall n, 0 <= n < 100 -> SizeT.valid n).
  { intros n Hn. unfold SizeT.valid, SizeT.modulus, SizeT.bits. lia. }
  split.
  - apply (gensine_returns_iff_room flat_sin (fresh_buffer 5) 9 5); [apply Hv; lia|].
    vm_compute. discriminate.
  - intros Hs.
    apply (gensine_returns_iff_room flat_sin (fresh_buffer 5) 9 6) in Hs;
      [|apply Hv; lia].
    vm_compute in Hs. now apply Hs.
Defined.

(** X2. [gensine] keeps the length of the array and touches no cell from
    index [2 * (num_samples / 2)] on: for an odd [num_samples] the last of
    the [num_samples] cells is left as it was, and for [num_samples] below 2
    nothing is stored at all. *)
Theorem gensine_leaves_the_rest (sin : spec_float -> spec_float)
    (b b' : buffer) (batch_num num_samples : Z) :
  SizeT.valid num_samples ->
  gensine sin b batch_num num_samples = Some b' ->
  length (cells b') = length (cells b)
  /\ (forall n : nat, 2 * (num_samples / 2) <= Z.of_nat n ->
        cells b' !! n = cells b !! n)
  /\ (Z.odd num_samples = true ->
      cells b' !! Z.to_nat (num_samples - 1)
      = cells b !! Z.to_nat (num_samples - 1))
  /\ (num_samples < 2 -> cells b' = cells b /\ stored b' = stored b).
Proof.
  intros Hvalid Hrun.
  destruct (gensine_result sin b b' batch_num num_samples Hvalid Hrun)
    as (_ & Hl & Hst & _ & Hold).
  destruct Hvalid as [Hlo Hhi].
  split; [exact Hl|]. split; [exact Hold|]. split.
  - intros Hodd. apply Hold.
    apply Z.odd_spec in Hodd as [h ->].
    replace ((2 * h + 1) / 2) with h by div_lia. lia.
  - intros Hsmall.
    assert (Hz : num_samples / 2 = 0) by div_lia.
    rewrite Hz in Hst, Hold. split.
    + apply list_eq. intros n. apply Hold. lia.
    + cbn in Hst. now rewrite app_nil_r in Hst.
Qed.

Lemma gensine_leaves_the_rest_witness :
  exists b',
    gensine flat_sin (fresh_buffer 3) 1 3 = Some b'
    /\ cells b' !! 2%nat = Some None.
Proof.
  assert (Hrun : exists b', gensine flat_sin (fresh_buffer 3) 1 3 = Some b').
  { eexists. vm_compute. reflexivity. }
  destruct Hrun as [b' Hrun]. exists b'. split; [exact Hrun|].
  destruct (gensine_leaves_the_rest flat_sin (fresh_buffer 3) b' 1 3)
    as (_ & _ & Hlast & _).
  - unfold SizeT.valid, SizeT.modulus, SizeT.bits. lia.
  - exact Hrun.
  - exact (Hlast eq_refl).
Defined.

(** X3. What [gensine] stores does not depend on what the array held
    before: two calls with the same batch number and sample count leave the
    same values in all the cells below [2 * (num_samples / 2)], whatever the
    two arrays were. *)
Theorem gensine_overwrites (sin : spec_float -> spec_float)
    (b1 b2 b1' b2' : buffer) (batch_num num_samples : Z) (n : nat) :
  SizeT.valid num_samples ->
  gensine sin b1 batch_num num_samples = Some b1' ->
  gensine sin b2 batch_num num_samples = Some b2' ->
  Z.of_nat n < 2 * (num_samples / 2) ->
  cells b1' !! n = cells b2' !! n /\ exists v, cells b1' !! n = Some (Some v).
Proof.
  intros Hvalid Hrun1 Hrun2 Hn.
  destruct (gensine_result sin b1 b1' batch_num num_samples Hvalid Hrun1)
    as (_ & _ & _ & Hc1 & _).
  destruct (gensine_result sin b2 b2' batch_num num_samples Hvalid Hrun2)
    as (_ & _ & _ & Hc2 & _).
  assert (Hj : Z.of_nat (Nat.div n 2) < num_samples / 2).
  { pose proof (Nat.div_mod_eq n 2). pose proof (Nat.mod_upper_bound n 2). lia. }
  destruct (Hc1 _ Hj) as [He1 Ho1]. destruct (Hc2 _ Hj) as [He2 Ho2].
  pose proof (Nat.div_mod_eq n 2) as Hdm.
  pose proof (Nat.mod_upper_bound n 2 ltac:(lia)) as Hm.
  unfold cell in *.
  destruct (Nat.eq_dec (Nat.modulo n 2) 0%nat) as [H0|H1].
  - replace (2 * Nat.div n 2)%nat with n in He1, He2 by lia.
    rewrite He1, He2. split; [reflexivity|now eexists].
  - replace (2 * Nat.div n 2 + 1)%nat with n in Ho1, Ho2 by lia.
    rewrite Ho1, Ho2. split; [reflexivity|now eexists].
Qed.

Lemma gensine_overwrites_witness :
  exists b1' b2',
    gensine flat_sin (fresh_buffer 4) 7 4 = Some b1'
    /\ gensine flat_sin b1' 7 4 = Some b2'
    /\ cells b2' !! 3%nat = cells b1' !! 3%nat.
Proof.
  assert (Hrun1 : exists b', gensine flat_sin (fresh_buffer 4) 7 4 = Some b').
  { eexists. vm_compute. reflexivity. }
  destruct Hrun1 as [b1' Hrun1].
  assert (Hrun2 : exists b', gensine flat_sin b1' 7 4 = Some b').
  { vm_compute in Hrun1. injection Hrun1 as <-. eexists. vm_compute. reflexivity. }
  destruct Hrun2 as [b2' Hrun2].
  exists b1', b2'. split; [exact Hrun1|]. split; [exact Hrun2|].
  apply (gensine_overwrites flat_sin b1' (fresh_buffer 4) b2' b1' 7 4 3);
    [unfold SizeT.valid, SizeT.modulus, SizeT.bits; lia|assumption|assumption|].
  reflexivity.
Defined.

(** X4. [gensine] fills the array from the front, in order and without going
    back: the indices it stores to are 0, 1, 2, ... up to
    [2 * (num_samples / 2) - 1], each once. *)
Theorem gensine_stores_in_order (sin : spec_float -> spec_float)
    (b b' : buffer) (batch_num num_samples : Z) :
  SizeT.valid num_samples ->
  gensine sin b batch_num num_samples = Some b' ->
  stored b' = stored b ++ seqZ 0 (2 * (num_samples / 2)).
Proof.
  intros Hvalid Hrun.
  now destruct (gensine_result sin b b' batch_num num_samples Hvalid Hrun)
    as (_ & _ & Hst & _).
Qed.

Lemma gensine_stores_in_order_witness :
  exists b',
    gensine flat_sin (fresh_buffer 7) 2 7 = Some b'
    /\ stored b' = [0; 1; 2; 3; 4; 5].
Proof.
  assert (Hrun : exists b', gensine flat_sin (fresh_buffer 7) 2 7 = Some b').
  { eexists. vm_compute. reflexivity. }
  destruct Hrun as [b' Hrun]. exists b'. split; [exact Hrun|].
  rewrite (gensine_stores_in_order flat_sin (fresh_buffer 7) b' 2 7);
    [reflexivity| |exact Hrun].
  unfold SizeT.valid, SizeT.modulus, SizeT.bits. lia.
Defined.

(** X5. Once [t] has reached 2^53, [t += 1] no longer changes it: in a batch
    that starts at time 2^53 every pair holds the sample of that one time. *)
Theorem gensine_time_stalls (sin : spec_float -> spec_float) (b b' : buffer)
    (batch_num num_samples : Z) (j : nat) :
  SizeT.valid num_samples ->
  gensine_start batch_num num_samples = 2 ^ 53 ->
  gensine sin b batch_num num_samples = Some b' ->
  Z.of_nat j < num_samples / 2 ->
  gensine_time batch_num num_samples j = F64.of_Z (2 ^ 53)
  /\ cells b' !! (2 * j)%nat
     = Some (Some (sample_at sin (F64.of_Z (2 ^ 53)))).
Proof.
  intros Hvalid Hstart Hrun Hj.
  assert (Htime : forall i : nat,
             gensine_time batch_num num_samples i = F64.of_Z (2 ^ 53)).
  { intros i. unfold gensine_time. rewrite Hstart.
    induction i as [|i IH]; [reflexivity|].
    rewrite Nat.iter_succ, IH. vm_compute. reflexivity. }
  split; [apply Htime|].
  destruct (gensine_result sin b b' batch_num num_samples Hvalid Hrun)
    as (_ & _ & _ & Hc & _).
  destruct (Hc j Hj) as [He _]. now rewrite He, Htime.
Qed.

Lemma gensine_time_stalls_witness :
  gensine_time (2 ^ 51) 8 2 = F64.of_Z (2 ^ 53)
  /\ F64.of_Z (2 ^ 53) <> F64.of_Z (2 ^ 51 * (8 / 2) + 2).
Proof.
  assert (Hrun : exists b', gensine flat_sin (fresh_buffer 8) (2 ^ 51) 8 = Some b').
  { eexists. vm_compute. reflexivity. }
  destruct Hrun as [b' Hrun].
  destruct (gensine_time_stalls flat_sin (fresh_buffer 8) b' (2 ^ 51) 8 2)
    as [Htime _].
  - unfold SizeT.valid, SizeT.modulus, SizeT.bits. lia.
  - reflexivity.
  - exact Hrun.
  - reflexivity.
  - split; [exact Htime|]. vm_compute. discriminate.
Defined.

(* ================================================================== *)
(** * More on [main]: how runs end and what they respect *)

(** A call of a run, with the result 0 in place of its own, ends an initial
    segment of the scenario; and a call that did not return 0 is the last
    one: only the message of [oops] follows, and the exit with status 1. *)
Lemma call_in_scenario (sin : spec_float -> spec_float) (env : environment)
    (t1 t2 : list event) (c : call) (r : Z) :
  trace sin env = t1 ++ EvCall c r :: t2 ->
  (t1 ++ [EvCall c 0]) `prefix_of` scenario sin 2205
  /\ (r = 0
      \/ (t2 = [EvStderr ("oops: " ++ call_name c ++ newline)%string]
          /\ result sin env = Exited 1)).
Proof.
  intros Ht.
  pose proof (scenario_results_zero sin 2205) as Hzero.
  assert (Hin : forall l1 l2, scenario sin 2205 = l1 ++ EvCall c r :: l2 -> r = 0).
  { intros l1 l2 Heq. rewrite Heq in Hzero.
    apply Forall_app in Hzero as [_ Hzero].
    apply Forall_cons in Hzero as [Hc _]. exact (Hc c r eq_refl). }
  destruct (main_cases sin env) as [[Hs Hr]|[Hr Hfail]].
  - rewrite Ht in Hs. pose proof (Hin _ _ (eq_sym Hs)) as ->.
    split; [|now left]. exists t2. rewrite <- Hs, <- app_assoc. reflexivity.
  - destruct Hfail as (n & cf & rf & Hnz & _ & Hn & Hf).
    assert (Hlast : (take n (scenario sin 2205) ++ [EvCall cf 0])
                      `prefix_of` scenario sin 2205).
    { exists (drop (S n) (scenario sin 2205)).
      rewrite <- app_assoc. cbn [app]. symmetry. now apply take_drop_middle. }
    assert (Hearly : forall k,
               take n (scenario sin 2205) = t1 ++ EvCall c r :: k ->
               (t1 ++ [EvCall c 0]) `prefix_of` scenario sin 2205 /\ r = 0).
    { intros k Hk.
      assert (r = 0) as ->.
      { apply (Hin t1 (k ++ drop n (scenario sin 2205))).
        rewrite <- (take_drop n (scenario sin 2205)) at 1.
        rewrite Hk, <- app_assoc. reflexivity. }
      split; [|reflexivity].
      etrans; [|apply (prefix_take _ n)]. rewrite Hk.
      exists k. rewrite <- app_assoc. reflexivity. }
    rewrite Ht in Hf.
    apply app_eq_inv in Hf as [(k & Hk1 & Hk2)|(k & Hk1 & Hk2)].
    + destruct k as [|x k]; cbn [app] in Hk2.
      * injection Hk2 as <- <- <-. rewrite app_nil_r in Hk1. subst t1.
        split; [exact Hlast|]. right. now split.
      * injection Hk2 as _ Hk2. destruct k as [|y k]; cbn [app] in Hk2.
        -- discriminate.
        -- injection Hk2 as _ Hk2. now destruct k.
    + destruct k as [|x k]; cbn [app] in Hk2.
      * injection Hk2 as -> -> ->. rewrite app_nil_r in Hk1. subst t1.
        split; [exact Hlast|]. right. now split.
      * injection Hk2 as <- _.
        destruct (Hearly k Hk1) as [Hpre ->]. split; [exact Hpre|now left].
Qed.

(** X6. [main] stops at the first failure: a call that returns a non-zero
    value is the last library call of the run.  Only the line
    "oops: <function>" on stderr follows, the exit status is 1, and nothing
    that was opened or allocated before is closed or released. *)
Theorem main_stops_at_first_failure (sin : spec_float -> spec_float)
    (env : environment) (t1 t2 : list event) (c : call) (r : Z) :
  trace sin env = t1 ++ EvCall c r :: t2 ->
  r <> 0 ->
  t2 = [EvStderr ("oops: " ++ call_name c ++ newline)%string]
  /\ calls t2 = []
  /\ result sin env = Exited 1.
Proof.
  intros Ht Hr.
  destruct (call_in_scenario sin env t1 t2 c r Ht) as [_ [->|[-> Hres]]];
    [contradiction|].
  repeat split. exact Hres.
Qed.

Lemma main_stops_at_first_failure_witness :
  result flat_sin (fail_on is_sender_open) = Exited 1.
Proof.
  refine (proj2 (proj2 (main_stops_at_first_failure flat_sin
                          (fail_on is_sender_open) (take 2 setup_events)
                          [EvStderr ("oops: roc_sender_open" ++ newline)%string]
                          (roc_sender_open
                             (SenderConfig 44100 (Some ROC_CHANNEL_SET_STEREO)
                                (Some ROC_FRAME_ENCODING_PCM_FLOAT)
                                (Some ROC_CLOCK_INTERNAL)))
                          (-1) _ _))).
  - vm_compute. reflexivity.
  - discriminate.
Defined.

Lemma filter_is_write_result (c : call) (r : Z) :
  length (filter is_write [EvCall c r])
  = length (filter is_write [EvCall c 0]).
Proof. destruct c; reflexivity. Qed.

(** X7. The exit status 0 vouches for the whole scenario: a run of [main]
    that ends with status 0 has opened context and sender, connected and
    released both endpoints, written all 2205 frames and closed sender and
    context, every call returning 0.  And no run, however it ends, writes
    more than 2205 frames. *)
Theorem exit_zero_means_all_done (sin : spec_float -> spec_float)
    (env : environment) :
  (exit_code (result sin env) = Some 0 ->
   trace sin env = scenario sin 2205
   /\ length (filter is_write (trace sin env)) = 2205%nat)
  /\ (length (filter is_write (trace sin env)) <= 2205)%nat.
Proof.
  destruct (main_cases sin env) as [[Hs Hr]|[Hr Hfail]].
  - rewrite Hs, scenario_write_count. repeat split; lia.
  - rewrite Hr. split; [discriminate|].
    destruct Hfail as (n & c & r & _ & _ & Hn & ->).
    pose proof (scenario_write_count sin 2205) as Hcount.
    rewrite <- (take_drop_middle _ _ _ Hn) in Hcount.
    rewrite filter_app, length_app in Hcount.
    change (EvCall c 0 :: drop (S n) (scenario sin 2205))
      with ([EvCall c 0] ++ drop (S n) (scenario sin 2205)) in Hcount.
    rewrite filter_app, length_app in Hcount.
    change [EvCall c r; EvStderr ("oops: " ++ call_name c ++ newline)%string]
      with ([EvCall c r]
              ++ [EvStderr ("oops: " ++ call_name c ++ newline)%string]).
    rewrite !filter_app, !length_app, filter_is_write_result.
    change (filter is_write
              [EvStderr ("oops: " ++ call_name c ++ newline)%string])
      with (@nil event).
    cbn [length]. lia.
Qed.

Lemma exit_zero_means_all_done_witness :
  trace flat_sin all_succeed = scenario flat_sin 2205
  /\ length (filter is_write (trace flat_sin all_succeed)) = 2205%nat.
Proof.
  destruct (exit_zero_means_all_done flat_sin all_succeed) as [Hdone _].
  apply Hdone.
  destruct (main_all_succeed flat_sin all_succeed all_succeed_ok) as [_ ->].
  reflexivity.
Defined.

(** X8. What [main] asks of the library never depends on what the library
    answered before: the calls of any run, with their arguments, are an
    initial segment of the calls of the run in which everything succeeds, and
    the call sequences of any two runs are comparable. *)
Theorem calls_independent_of_results (sin : spec_float -> spec_float)
    (env env' : environment) :
  calls (trace sin env) `prefix_of` calls (trace sin all_succeed)
  /\ (calls (trace sin env) `prefix_of` calls (trace sin env')
      \/ calls (trace sin env') `prefix_of` calls (trace sin env)).
Proof.
  destruct (main_all_succeed sin all_succeed all_succeed_ok) as [-> _].
  split; [apply trace_calls_prefix|].
  eapply prefix_weak_total; apply trace_calls_prefix.
Qed.

Lemma setup_events_no_write : Forall (fun e => ~ is_write e) setup_events.
Proof. repeat constructor; intros []. Qed.

(** X9. [main] only ever writes to a sender that is open and connected:
    wherever [roc_sender_write] is called, the context and the sender have
    been opened and both endpoints connected, each of these calls having
    returned 0, and neither the sender nor the context has been closed. *)
Theorem writes_on_open_connected_sender (sin : spec_float -> spec_float)
    (env : environment) (t1 t2 : list event) (frame : roc_frame) (r : Z) :
  trace sin env = t1 ++ EvCall (roc_sender_write frame) r :: t2 ->
  EvCall (roc_context_open context_config_zeroed) 0 ∈ t1
  /\ (exists config, EvCall (roc_sender_open config) 0 ∈ t1)
  /\ EvCall (roc_sender_connect ROC_INTERFACE_AUDIO_SOURCE recv_source_endp) 0
       ∈ t1
  /\ EvCall (roc_sender_connect ROC_INTERFACE_AUDIO_REPAIR recv_repair_endp) 0
       ∈ t1
  /\ (roc_sender_close ∉ calls t1)
  /\ (roc_context_close ∉ calls t1).
Proof.
  intros Ht.
  destruct (call_in_scenario sin env t1 t2 _ r Ht) as [[rest Hsc] _].
  rewrite <- app_assoc in Hsc. cbn [app] in Hsc. unfold scenario in Hsc.
  symmetry in Hsc.
  apply (app_cons_beyond (fun e => is_write e)) in Hsc
      as (k & -> & Hk); [|exact setup_events_no_write|exact I].
  assert (Hkw : forall e, e ∈ k -> exists i, e = write_event sin i).
  { intros e He.
    apply app_eq_inv in Hk as [(k0 & Hk1 & Hk2)|(k0 & Hk1 & Hk2)].
    - exfalso. unfold teardown_events in Hk2.
      destruct k0 as [|x k0]; cbn [app] in Hk2; [discriminate|].
      injection Hk2 as _ Hk2.
      destruct k0 as [|y k0]; cbn [app] in Hk2; [discriminate|].
      injection Hk2 as _ Hk2. now destruct k0.
    - assert (Hin : e ∈ write_event sin <$> seqZ 0 2205).
      { rewrite Hk1. apply elem_of_app. now left. }
      apply list_elem_of_fmap in Hin as (i & -> & _). now exists i. }
  assert (Hnc : forall c, c ∈ calls (setup_events ++ k) ->
                          c <> roc_sender_close /\ c <> roc_context_close).
  { intros c Hc. unfold calls in Hc. rewrite omap_app in Hc.
    apply elem_of_app in Hc as [Hc|Hc].
    - change (omap call_of setup_events) with (calls setup_events) in Hc.
      cbv in Hc.
      repeat (apply elem_of_cons in Hc as [->|Hc]; [split; discriminate|]).
      now apply elem_of_nil in Hc.
    - apply list_elem_of_omap in Hc as (e & He & Hcall).
      destruct (Hkw e He) as [i ->]. cbn in Hcall. injection Hcall as <-.
      split; discriminate. }
  split. { apply elem_of_app. left. now apply (list_elem_of_lookup_2 _ 1). }
  split. { eexists. apply elem_of_app. left.
           now apply (list_elem_of_lookup_2 _ 2). }
  split. { apply elem_of_app. left. now apply (list_elem_of_lookup_2 _ 7). }
  split. { apply elem_of_app. left. now apply (list_elem_of_lookup_2 _ 13). }
  split; intros Hc; now destruct (Hnc _ Hc).
Qed.

Lemma writes_on_open_connected_sender_witness :
  EvCall (roc_sender_connect ROC_INTERFACE_AUDIO_REPAIR recv_repair_endp) 0
    ∈ setup_events
  /\ (roc_sender_close ∉ calls setup_events).
Proof.
  destruct (main_all_succeed flat_sin all_succeed all_succeed_ok) as [Ht _].
  destruct (writes_on_open_connected_sender flat_sin all_succeed setup_events
              ((write_event flat_sin <$> seqZ 1 2204) ++ teardown_events)
              (batch_frame flat_sin 0) 0) as (_ & _ & _ & Hrep & Hclose & _).
  - rewrite Ht. unfold scenario.
    rewrite (seqZ_cons 0 2205) by lia. reflexivity.
  - split; assumption.
Defined.

Lemma writes_of_scenario (sin : spec_float -> spec_float) (n : Z) :
  filter (fun c => is_sender_write c) (calls (scenario sin n))
  = (fun i => roc_sender_write (batch_frame sin i)) <$> seqZ 0 n.
Proof.
  rewrite calls_scenario, !filter_app.
  change (filter (fun c => is_sender_write c) (calls setup_events))
    with (@nil call).
  change (filter (fun c => is_sender_write c)
            [roc_sender_close; roc_context_close]) with (@nil call).
  rewrite app_nil_r. cbn [app].
  induction (seqZ 0 n) as [|i l IH]; [reflexivity|].
  rewrite fmap_cons, filter_cons_True by exact I. now rewrite IH.
Qed.

(** X10. Across a run, the frames handed to [roc_sender_write] carry one
    uninterrupted sinusoid: the pair [j] of the [i]-th frame written (counting
    from 0; a failed write counts) holds, on the left,
    [(float)sin(2 * 3.14159265359 * 440 / 44100 * t) * 0.1f] at the time
    [t = 50 * i + j], and its negation on the right, whatever the library
    returned along the way. *)
Theorem frames_carry_one_sinusoid (sin : spec_float -> spec_float)
    (env : environment) (i j : nat) (frame : roc_frame) :
  filter (fun c => is_sender_write c) (calls (trace sin env)) !! i
  = Some (roc_sender_write frame) ->
  (j < 50)%nat ->
  (i < 2205)%nat
  /\ samples frame !! (2 * j)%nat
     = Some (Some (sample_at sin (F64.of_Z (50 * Z.of_nat i + Z.of_nat j))))
  /\ samples frame !! (2 * j + 1)%nat
     = Some (Some (F32.opp
                     (sample_at sin
                        (F64.of_Z (50 * Z.of_nat i + Z.of_nat j))))).
Proof.
  intros Hi Hj.
  pose proof (trace_calls_prefix sin env) as [rest Hrest].
  assert (Hpre : filter (fun c => is_sender_write c) (calls (trace sin env))
                   `prefix_of`
                 filter (fun c => is_sender_write c) (calls (scenario sin 2205))).
  { rewrite Hrest, filter_app. now eexists. }
  rewrite writes_of_scenario in Hpre.
  pose proof (prefix_lookup_Some _ _ _ _ Hi Hpre) as Hl.
  rewrite list_lookup_fmap in Hl.
  destruct (seqZ 0 2205 !! i) as [z|] eqn:Hz; [|discriminate].
  apply lookup_seqZ in Hz as [-> Hlt]. cbn [fmap option_fmap option_map] in Hl.
  assert (Hframe : frame = batch_frame sin (0 + Z.of_nat i)) by congruence.
  rewrite Hframe. clear Hl Hi Hframe.
  split; [lia|].
  destruct (batch_frame_shape sin (0 + Z.of_nat i)) as (_ & _ & Hpairs).
  destruct (Hpairs j Hj) as [He Ho].
  assert (Hstart : gensine_start (0 + Z.of_nat i) 100 = 50 * Z.of_nat i).
  { rewrite gensine_start_even;
      [change (100 / 2) with 50; lia|lia|lia| |reflexivity].
    unfold SizeT.modulus, SizeT.bits. lia. }
  rewrite gensine_time_exact in He, Ho by (rewrite Hstart; lia).
  rewrite Hstart in He, Ho. split; assumption.
Qed.

Lemma frames_carry_one_sinusoid_witness :
  samples (batch_frame flat_sin 3) !! 14%nat
  = Some (Some (sample_at flat_sin (F64.of_Z 157))).
Proof.
  refine (proj1 (proj2 (frames_carry_one_sinusoid flat_sin all_succeed 3 7
                          (batch_frame flat_sin 3) _ _))); [|lia].
  destruct (main_all_succeed flat_sin all_succeed all_succeed_ok) as [-> _].
  rewrite writes_of_scenario, list_lookup_fmap, lookup_seqZ_lt by lia.
  reflexivity.
Defined.



Lemma written_frames_initialised_witness :
  Forall (fun c : cell => is_Some c) (samples (batch_frame flat_sin 0)).
Proof.
  destruct all_succeed_opens_and_writes as [_ Hwrite].
  exact (written_frames_initialised flat_sin all_succeed _ 0 Hwrite).
Defined.
